(** * Storage helpers: a shallow embedding of the two accessor modules

    The repository ships the same four helpers twice: a JavaScript module
    ([getEntryFromStorage], [setItemInStorage], [hasPropertyForKey],
    [updateStoredPropsForKey] as top-level constants) and a TypeScript
    object [storageActions] whose methods return a [StorageResult].

    Both are written against three platform services that the repository
    does not implement: [localStorage], [JSON.parse]/[JSON.stringify] and
    the property semantics of JavaScript objects.  [localStorage] is a
    finite map from keys to texts; the JSON codec and the wording of the
    errors the platform raises are the fields of the class [Engine], so
    that every general statement below holds for any engine; the property
    semantics of plain objects is written out.  The store never faults:
    [setItem] has no quota. *)

From Stdlib Require Import ZArith Ascii DecimalString DecimalFacts DecimalPos.
From stdpp Require Import gmap strings.

(** ** JSON values *)

(** The TypeScript source declares [JSONValue] as a primitive, an array or
    a string-keyed object.  Numbers are the integers; an object lists its
    properties in enumeration order, one pair per key. *)
#[warnings="-register-all"]
Inductive JSONValue : Type :=
  | JNull
  | JBool (b : bool)
  | JNumber (n : Z)
  | JString (s : string)
  | JArray (items : list JSONValue)
  | JObject (props : list (string * JSONValue)).

Abbreviation JSONObject := (list (string * JSONValue)).

(** ToBoolean on a JSON value. *)
Definition truthy (v : JSONValue) : bool :=
  match v with
  | JNull => false
  | JBool b => b
  | JNumber n => negb (n =? 0)%Z
  | JString s => negb (String.eqb s "")
  | JArray _ | JObject _ => true
  end.

(** ToBoolean on what [localStorage.getItem] returns: [null] and the empty
    text are falsy. *)
Definition text_truthy (t : option string) : bool :=
  match t with
  | Some s => negb (String.eqb s "")
  | None => false
  end.

(** [haystack.includes(needle)] *)
Fixpoint includes (needle haystack : string) : bool :=
  String.prefix needle haystack ||
  match haystack with
  | EmptyString => false
  | String _ rest => includes needle rest
  end.

(** *** Own properties *)

Fixpoint obj_lookup (k : string) (o : JSONObject) : option JSONValue :=
  match o with
  | [] => None
  | (k', v) :: o' => if String.eqb k' k then Some v else obj_lookup k o'
  end.

(** An array index is the canonical decimal name of an integer below
    2^32 - 1.  An object enumerates its array-index keys first, in
    ascending order, then its other keys in the order of their creation. *)
Definition digit_value (c : ascii) : option N :=
  let n := N_of_ascii c in
  if (48 <=? n)%N && (n <=? 57)%N then Some (n - 48)%N else None.

Fixpoint digits_value (acc : N) (s : string) : option N :=
  match s with
  | EmptyString => Some acc
  | String c rest =>
      match digit_value c with
      | Some d => digits_value (10 * acc + d) rest
      | None => None
      end
  end.

Definition array_index (k : string) : option N :=
  match k with
  | EmptyString => None
  | String c rest =>
      if Ascii.eqb c "0" then
        match rest with EmptyString => Some 0%N | String _ _ => None end
      else
        match digits_value 0 k with
        | Some n => if (n <? 4294967295)%N then Some n else None
        | None => None
        end
  end.

Fixpoint obj_replace (k : string) (v : JSONValue) (o : JSONObject) : JSONObject :=
  match o with
  | [] => []
  | (k', v') :: o' =>
      if String.eqb k' k then (k', v) :: o' else (k', v') :: obj_replace k v o'
  end.

Fixpoint obj_insert_index (i : N) (k : string) (v : JSONValue) (o : JSONObject)
    : JSONObject :=
  match o with
  | [] => [(k, v)]
  | (k', v') :: o' =>
      match array_index k' with
      | Some j =>
          if (j <? i)%N then (k', v') :: obj_insert_index i k v o' else (k, v) :: o
      | None => (k, v) :: o
      end
  end.

(** CreateDataProperty / assignment to an own data property: an existing
    key keeps its place and takes the new value; a new key is created, an
    array index among the indices and any other name last. *)
Definition obj_set (k : string) (v : JSONValue) (o : JSONObject) : JSONObject :=
  match obj_lookup k o with
  | Some _ => obj_replace k v o
  | None =>
      match array_index k with
      | Some i => obj_insert_index i k v o
      | None => o ++ [(k, v)]
      end
  end.

(** [Object.assign(target, source)] restricted to own data properties;
    [{...a, ...b}] is [obj_assign (obj_assign [] a) b]. *)
Definition obj_assign (target source : JSONObject) : JSONObject :=
  fold_left (λ acc kv, obj_set kv.1 kv.2 acc) source target.

(** The decimal name of an array index. *)
Definition index_key (i : nat) : string :=
  NilEmpty.string_of_uint (Nat.to_uint i).

Definition index_keys (n : nat) : list string := index_key <$> seq 0 n.

Definition char_value (c : ascii) : JSONValue := JString (String c EmptyString).

(** The own enumerable string-keyed properties of [ToObject v], for [v]
    other than [null]: what [Object.keys], [Object.entries] and object
    spread enumerate.  Spread of a primitive or of [null] copies nothing. *)
Definition own_entries (v : JSONValue) : JSONObject :=
  match v with
  | JObject o => o
  | JArray l => zip (index_keys (length l)) l
  | JString s =>
      zip (index_keys (String.length s)) (char_value <$> String.list_ascii_of_string s)
  | JNull | JBool _ | JNumber _ => []
  end.

(** [Object.prototype.hasOwnProperty.call(v, k)] for [v] other than
    [null]; arrays and strings own their indices and [length]. *)
Definition has_own (v : JSONValue) (k : string) : bool :=
  match v with
  | JObject o => bool_decide (is_Some (obj_lookup k o))
  | JArray l => String.eqb k "length" || existsb (String.eqb k) (index_keys (length l))
  | JString s =>
      String.eqb k "length" || existsb (String.eqb k) (index_keys (String.length s))
  | JNull | JBool _ | JNumber _ => false
  end.

(** The property names every plain object inherits from
    [Object.prototype] (ECMA-262, 20.1.3 and B.2.2).  All of them hold
    functions, except the accessor [__proto__] whose getter returns the
    prototype object: reading any of them yields a truthy value. *)
Definition Object_prototype : list string :=
  [ "constructor"; "hasOwnProperty"; "isPrototypeOf"; "propertyIsEnumerable";
    "toLocaleString"; "toString"; "valueOf"; "__proto__";
    "__defineGetter__"; "__defineSetter__"; "__lookupGetter__"; "__lookupSetter__" ].

Definition Object_prototype_has (k : string) : bool :=
  existsb (String.eqb k) Object_prototype.

(** ** Errors and the platform *)

Inductive ErrorKind := PlainError | TypeError | SyntaxError.

Record JSError := mkError { err_kind : ErrorKind; err_message : string }.

(** The places where the platform, not the repository, raises. *)
Inductive fault :=
  | BadJSON (text : string)               (* JSON.parse on a text that is not JSON *)
  | ReadOfNull (property : string)        (* null[property] *)
  | WriteOfNull (property : string)       (* null[property] = v *)
  | NullToObject                          (* Object.keys(null), hasOwnProperty.call(null, _) *)
  | InOperand (property : string) (operand : JSONValue). (* property in <primitive> *)

(** What the helpers take from the JavaScript engine.  [JSON_parse]
    answers [None] where [JSON.parse] throws a [SyntaxError]; the message
    of an error is implementation-defined and comes from [fault_message];
    [Array_prototype_has] tells which names arrays inherit in addition to
    those of [Object_prototype]. *)
Class Engine := {
  JSON_stringify : JSONValue → string;
  JSON_parse : string → option JSONValue;
  fault_message : fault → string;
  Array_prototype_has : string → bool;
}.

(** ** The world and the computations over it *)

Record World := mkWorld {
  localStorage : gmap string string;
  console : list JSError;
}.

(** How a piece of code ends: with a value, with an exception, or outside
    what this development describes ([Unmodelled]: property access on an
    entry that is an array or a non-null primitive in the JavaScript
    module, and a change of prototype through [__proto__]). *)
Inductive completion (A : Type) : Type :=
  | Return (a : A)
  | Throw (e : JSError)
  | Unmodelled.
Arguments Return {A} a.
Arguments Throw {A} e.
Arguments Unmodelled {A}.

Definition JS (A : Type) : Type := World → completion A * World.

Definition ret {A} (a : A) : JS A := λ w, (Return a, w).

Definition bind {A B} (m : JS A) (f : A → JS B) : JS B :=
  λ w,
    match m w with
    | (Return a, w') => f a w'
    | (Throw e, w') => (Throw e, w')
    | (Unmodelled, w') => (Unmodelled, w')
    end.

Declare Scope js_scope.
Delimit Scope js_scope with js.
Bind Scope js_scope with JS.
Notation "'let*' x := m 'in' k" := (bind m (λ x, k))
  (at level 10, x pattern, m at level 100, k at level 200,
   format "'[v' 'let*'  x  :=  m  'in' '/' k ']'") : js_scope.
Notation "m1 ;; m2" := (bind m1 (λ _, m2))
  (at level 100, m2 at level 200, right associativity) : js_scope.
Local Open Scope js_scope.

Definition throw {A} (e : JSError) : JS A := λ w, (Throw e, w).

Definition unmodelled {A} : JS A := λ w, (Unmodelled, w).

(** [try { body } catch (error) { handler error }] *)
Definition try_catch {A} (body : JS A) (handler : JSError → JS A) : JS A :=
  λ w,
    match body w with
    | (Throw e, w') => handler e w'
    | r => r
    end.

Definition getItem (key : string) : JS (option string) :=
  λ w, (Return (localStorage w !! key), w).

Definition setItem (key text : string) : JS unit :=
  λ w, (Return (), mkWorld (<[key := text]> (localStorage w)) (console w)).

Definition console_error (e : JSError) : JS unit :=
  λ w, (Return (), mkWorld (localStorage w) (console w ++ [e])).

(** A loop that threads a value through the elements of a list, as
    [forEach] does with the object it mutates. *)
Fixpoint for_each {A B} (f : B → A → JS B) (l : list A) (b : B) : JS B :=
  match l with
  | [] => ret b
  | a :: l' => let* b' := f b a in for_each f l' b'
  end.

(** [Array.prototype.filter] with a predicate that may throw. *)
Fixpoint filter_js {A} (p : A → JS bool) (l : list A) : JS (list A) :=
  match l with
  | [] => ret []
  | a :: l' =>
      let* keep := p a in
      let* rest := filter_js p l' in
      ret (if keep then a :: rest else rest)
  end.

(** ** Platform operations that may throw *)

Section Platform.
Context `{Engine}.

(** [JSON.parse(text)] *)
Definition parse (text : string) : JS JSONValue :=
  match JSON_parse text with
  | Some v => ret v
  | None => throw (mkError SyntaxError (fault_message (BadJSON text)))
  end.

(** [Object.entries(v)]; [Object.keys(v)] is its first projection.
    [ToObject] rejects [null]. *)
Definition Object_entries (v : JSONValue) : JS JSONObject :=
  match v with
  | JNull => throw (mkError TypeError (fault_message NullToObject))
  | _ => ret (own_entries v)
  end.

(** [Object.prototype.hasOwnProperty.call(d, k)], where [d] may be
    [undefined] ([None]). *)
Definition hasOwnProperty (d : option JSONValue) (k : string) : JS bool :=
  match d with
  | None | Some JNull => throw (mkError TypeError (fault_message NullToObject))
  | Some v => ret (has_own v k)
  end.

(** [{...d}] *)
Definition spread (d : option JSONValue) : JSONObject :=
  match d with
  | Some v => obj_assign [] (own_entries v)
  | None => []
  end.

(** [property in v]: own or inherited for objects and arrays, a
    [TypeError] for primitives. *)
Definition has_property (property : string) (v : JSONValue) : JS bool :=
  match v with
  | JObject o =>
      ret (bool_decide (is_Some (obj_lookup property o)) || Object_prototype_has property)
  | JArray _ =>
      ret (has_own v property || Array_prototype_has property
           || Object_prototype_has property)
  | _ => throw (mkError TypeError (fault_message (InOperand property v)))
  end.

(** *** Property access in the JavaScript module

    What [entry[k]] evaluates to: an own value, a value found on the
    prototype chain (always truthy and never [undefined], see
    [Object_prototype]), or [undefined]. *)
Inductive property_read :=
  | Own (v : JSONValue)
  | Inherited
  | Undefined.

Definition read_truthy (r : property_read) : bool :=
  match r with
  | Own v => truthy v
  | Inherited => true
  | Undefined => false
  end.

Definition read_defined (r : property_read) : bool :=
  match r with
  | Own _ | Inherited => true
  | Undefined => false
  end.

(** [entry[k]] *)
Definition Get (entry : JSONValue) (k : string) : JS property_read :=
  match entry with
  | JNull => throw (mkError TypeError (fault_message (ReadOfNull k)))
  | JObject o =>
      ret (match obj_lookup k o with
           | Some v => Own v
           | None => if Object_prototype_has k then Inherited else Undefined
           end)
  | _ => unmodelled
  end.

(** [entry[k] = v] in strict code (the file is an ES module).  An own
    key is overwritten; a key that is not own becomes a new own
    property, since the inherited properties are writable data
    properties, except [__proto__], whose setter ignores a primitive and
    otherwise replaces the prototype. *)
Definition Put (entry : JSONValue) (k : string) (v : JSONValue) : JS JSONValue :=
  match entry with
  | JNull => throw (mkError TypeError (fault_message (WriteOfNull k)))
  | JObject o =>
      match obj_lookup k o with
      | Some _ => ret (JObject (obj_set k v o))
      | None =>
          if String.eqb k "__proto__" then
            match v with
            | JNull | JArray _ | JObject _ => unmodelled
            | _ => ret entry
            end
          else ret (JObject (obj_set k v o))
      end
  | _ => unmodelled
  end.
End Platform.

(** ** The JavaScript module *)

Section Legacy.
Context `{Engine}.

(** The read throws and catches its own "not found" error, so that a
    missing or empty entry is only logged; [JSON.parse] sits after the
    [try] block and its [SyntaxError] leaves the function. *)
Definition getEntryFromStorage (key : string) : JS JSONValue :=
  let* result := getItem key in
  try_catch
    (if negb (text_truthy result)
     then throw (mkError PlainError (key +:+ " not found in local storage."))
     else ret ())
    (λ error, console_error error) ;;
  match result with
  | Some text => if text_truthy result then parse text else ret JNull
  | None => ret JNull
  end.

Definition setItemInStorage (key : string) (value : JSONValue)
    (preserveExisting : bool) : JS bool :=
  try_catch
    ((if negb preserveExisting then
        setItem key (JSON_stringify value)
      else
        let* entry := getEntryFromStorage key in
        let* props := Object_entries value in
        let* entry := for_each (λ entry kv,
                        let* current := Get entry kv.1 in
                        if negb (read_truthy current)
                        then Put entry kv.1 kv.2
                        else ret entry) props entry in
        setItem key (JSON_stringify entry)) ;;
     ret true)
    (λ error, console_error error ;; ret false).

(** [entry && entry[property] !== undefined] is the entry itself when
    the entry is falsy, so the function returns a JavaScript value that
    need not be a boolean. *)
Definition hasPropertyForKey (key property : string) : JS JSONValue :=
  try_catch
    (let* entry := getEntryFromStorage key in
     if truthy entry then
       let* current := Get entry property in
       ret (JBool (read_defined current))
     else ret entry)
    (λ error, console_error error ;; ret (JBool false)).

Definition updateStoredPropsForKey (key : string) (propertyUpdates : JSONValue)
    : JS bool :=
  try_catch
    (let* entry := getEntryFromStorage key in
     let* props := Object_entries propertyUpdates in
     let* entry := for_each (λ entry kv,
                     let* current := Get entry kv.1 in
                     if read_truthy current
                     then Put entry kv.1 kv.2
                     else ret entry) props entry in
     setItem key (JSON_stringify entry) ;;
     ret true)
    (λ error, console_error error ;; ret false).
End Legacy.

(** ** The TypeScript module *)

Record StorageResult := mkResult {
  success : bool;
  data : option JSONValue;
  error : option string;
}.

Definition succeed (d : JSONValue) : StorageResult := mkResult true (Some d) None.

(** [{ success: false, error }] *)
Definition fail (e : option string) : StorageResult := mkResult false None e.

Module storageActions.
Section Typed.
Context `{Engine}.

Definition getEntryFromStorage (key : string) : JS StorageResult :=
  try_catch
    (let* result := getItem key in
     match result with
     | Some text =>
         if negb (text_truthy result)
         then ret (fail (Some (key +:+ " not found in storage.")))
         else let* parsed := parse text in ret (succeed parsed)
     | None => ret (fail (Some (key +:+ " not found in storage.")))
     end)
    (λ error, ret (fail (Some ("Failed to get entry from storage: "
                               +:+ err_message error)))).

(** [error?.includes("not found")] *)
Definition mentions_not_found (e : option string) : bool :=
  match e with
  | Some text => includes "not found" text
  | None => false
  end.

Definition setItemInStorage (key : string) (value : JSONObject)
    (preserveExisting : bool) : JS StorageResult :=
  try_catch
    (if negb preserveExisting then
       setItem key (JSON_stringify (JObject value)) ;;
       ret (succeed (JObject value))
     else
       let* r := getEntryFromStorage key in
       if negb (success r) && mentions_not_found (error r) then
         setItem key (JSON_stringify (JObject value)) ;;
         ret (succeed (JObject value))
       else if negb (success r) then
         ret (fail (error r))
       else
         let* fresh := filter_js (λ kv,
                         let* own := hasOwnProperty (data r) kv.1 in
                         ret (negb own)) value in
         let updatedValue := JObject (obj_assign (spread (data r)) fresh) in
         setItem key (JSON_stringify updatedValue) ;;
         ret (succeed updatedValue))
    (λ error, ret (fail (Some ("Failed to set item in storage: "
                               +:+ err_message error)))).

Definition hasPropertyForKey (key property : string) : JS StorageResult :=
  try_catch
    (let* r := getEntryFromStorage key in
     if negb (success r) then
       ret (fail (error r))
     else
       match data r with
       | Some d =>
           if truthy d then
             let* found := has_property property d in
             ret (succeed (JBool found))
           else ret (succeed d)
       | None => ret (mkResult true None None)
       end)
    (λ error, ret (fail (Some ("Failed to check property: "
                               +:+ err_message error)))).

Definition updateStoredPropsForKey (key : string) (propertyUpdates : JSONObject)
    : JS StorageResult :=
  try_catch
    (let* r := getEntryFromStorage key in
     if negb (success r) then
       ret (fail (error r))
     else
       let* present := filter_js (λ kv, hasOwnProperty (data r) kv.1)
                         propertyUpdates in
       let updatedValue := JObject (obj_assign (spread (data r)) present) in
       setItem key (JSON_stringify updatedValue) ;;
       ret (succeed updatedValue))
    (λ error, ret (fail (Some ("Failed to update properties: "
                               +:+ err_message error)))).
End Typed.
End storageActions.

(** ** A reference engine

    A concrete engine on which the helpers can be run: a JSON printer
    without indentation as [JSON.stringify] prints, a JSON reader, and the
    error messages of V8 (Chrome, Node.js).  It reads and prints the
    integers; a text with a fraction, an exponent or a u-escape above
    007f is outside its range and is not used below.  The message for
    [BadJSON] is V8's message for an unexpected first character in a text
    shorter than 21 characters, which quotes the text in full. *)
Module Reference.

Definition dquote : ascii := ascii_of_nat 34.
Definition backslash : ascii := ascii_of_nat 92.

Definition str1 (c : ascii) : string := String c EmptyString.

Definition hex_digit (n : nat) : ascii :=
  ascii_of_nat (if n <? 10 then 48 + n else 87 + n).

(** QuoteJSONString, one character at a time. *)
Definition quote_char (c : ascii) : string :=
  let n := nat_of_ascii c in
  if n =? 34 then String backslash (str1 dquote)
  else if n =? 92 then String backslash (str1 backslash)
  else if n =? 8 then String backslash "b"
  else if n =? 9 then String backslash "t"
  else if n =? 10 then String backslash "n"
  else if n =? 12 then String backslash "f"
  else if n =? 13 then String backslash "r"
  else if n <? 32 then
    String backslash ("u00" +:+ String (hex_digit (n / 16)) (str1 (hex_digit (n mod 16))))
  else str1 c.

Fixpoint quote_chars (s : string) : string :=
  match s with
  | EmptyString => EmptyString
  | String c rest => quote_char c +:+ quote_chars rest
  end.

Definition quote (s : string) : string :=
  String dquote (quote_chars s +:+ str1 dquote).

Definition print_number (n : Z) : string :=
  NilEmpty.string_of_int (Z.to_int n).

(** The texts of a list, separated by commas. *)
Fixpoint join_comma (l : list string) : string :=
  match l with
  | [] => EmptyString
  | [x] => x
  | x :: l' => x +:+ "," +:+ join_comma l'
  end.

Fixpoint stringify (v : JSONValue) : string :=
  match v with
  | JNull => "null"
  | JBool true => "true"
  | JBool false => "false"
  | JNumber n => print_number n
  | JString s => quote s
  | JArray items => "[" +:+ join_comma (List.map stringify items) +:+ "]"
  | JObject props =>
      "{" +:+ join_comma (List.map (λ kv, quote kv.1 +:+ ":" +:+ stringify kv.2) props)
      +:+ "}"
  end.

(** *** Reading *)

Definition is_ws (c : ascii) : bool :=
  let n := nat_of_ascii c in
  (n =? 32) || (n =? 9) || (n =? 10) || (n =? 13).

Fixpoint skip_ws (s : string) : string :=
  match s with
  | String c rest => if is_ws c then skip_ws rest else s
  | EmptyString => EmptyString
  end.

Definition digit_of (c : ascii) : option Z :=
  let n := nat_of_ascii c in
  if (48 <=? n) && (n <=? 57) then Some (Z.of_nat (n - 48)) else None.

Definition hex_of (c : ascii) : option nat :=
  let n := nat_of_ascii c in
  if (48 <=? n) && (n <=? 57) then Some (n - 48)
  else if (97 <=? n) && (n <=? 102) then Some (n - 87)
  else if (65 <=? n) && (n <=? 70) then Some (n - 55)
  else None.

(** The digits that continue a number whose value so far is [acc]. *)
Fixpoint read_digits (acc : Z) (s : string) : Z * string :=
  match s with
  | String c rest =>
      match digit_of c with
      | Some d => read_digits (10 * acc + d) rest
      | None => (acc, s)
      end
  | EmptyString => (acc, s)
  end.

(** After the integer part: a fraction or an exponent is not read. *)
Definition ends_integer (s : string) : bool :=
  match s with
  | String c _ =>
      let n := nat_of_ascii c in negb ((n =? 46) || (n =? 101) || (n =? 69))
  | EmptyString => true
  end.

(** [0] or a digit from 1 to 9 followed by digits. *)
Definition read_natural (s : string) : option (Z * string) :=
  match s with
  | String c rest =>
      match digit_of c with
      | Some 0%Z =>
          match rest with
          | String c' _ =>
              match digit_of c' with
              | Some _ => None
              | None => if ends_integer rest then Some (0%Z, rest) else None
              end
          | EmptyString => Some (0%Z, rest)
          end
      | Some d =>
          let '(n, rest') := read_digits d rest in
          if ends_integer rest' then Some (n, rest') else None
      | None => None
      end
  | EmptyString => None
  end.

(** The characters of a string literal after its opening quote, up to and
    including the closing quote. *)
Fixpoint read_chars (s : string) : option (string * string) :=
  match s with
  | EmptyString => None
  | String c rest =>
      let n := nat_of_ascii c in
      if n =? 34 then Some (EmptyString, rest)
      else if n <? 32 then None
      else if n =? 92 then
        match rest with
        | String e rest' =>
            let k := nat_of_ascii e in
            let simple (c' : nat) :=
              match read_chars rest' with
              | Some (str, tail) => Some (String (ascii_of_nat c') str, tail)
              | None => None
              end in
            if k =? 34 then simple 34
            else if k =? 92 then simple 92
            else if k =? 47 then simple 47
            else if k =? 98 then simple 8
            else if k =? 102 then simple 12
            else if k =? 110 then simple 10
            else if k =? 114 then simple 13
            else if k =? 116 then simple 9
            else if k =? 117 then
              match rest' with
              | String h1 (String h2 (String h3 (String h4 rest''))) =>
                  match hex_of h1, hex_of h2, hex_of h3, hex_of h4 with
                  | Some 0, Some 0, Some a, Some b =>
                      if a <? 8 then
                        match read_chars rest'' with
                        | Some (str, tail) =>
                            Some (String (ascii_of_nat (16 * a + b)) str, tail)
                        | None => None
                        end
                      else None
                  | _, _, _, _ => None
                  end
              | _ => None
              end
            else None
        | EmptyString => None
        end
      else
        match read_chars rest with
        | Some (str, tail) => Some (String c str, tail)
        | None => None
        end
  end.

(** [expect word s]: [s] without its prefix [word]. *)
Fixpoint expect (word s : string) : option string :=
  match word, s with
  | EmptyString, _ => Some s
  | String a word', String b s' => if Ascii.eqb a b then expect word' s' else None
  | String _ _, EmptyString => None
  end.

Fixpoint read_value (fuel : nat) (s : string) : option (JSONValue * string) :=
  match fuel with
  | 0 => None
  | S fuel =>
      match skip_ws s with
      | EmptyString => None
      | String c rest =>
          let n := nat_of_ascii c in
          if n =? 110 then v ← expect "ull" rest; Some (JNull, v)
          else if n =? 116 then v ← expect "rue" rest; Some (JBool true, v)
          else if n =? 102 then v ← expect "alse" rest; Some (JBool false, v)
          else if n =? 34 then '(str, tail) ← read_chars rest; Some (JString str, tail)
          else if n =? 45 then '(m, tail) ← read_natural rest; Some (JNumber (- m), tail)
          else if n =? 91 then
            match skip_ws rest with
            | String c' rest' =>
                if nat_of_ascii c' =? 93 then Some (JArray [], rest')
                else '(items, tail) ← read_elements fuel rest; Some (JArray items, tail)
            | EmptyString => None
            end
          else if n =? 123 then
            match skip_ws rest with
            | String c' rest' =>
                if nat_of_ascii c' =? 125 then Some (JObject [], rest')
                else '(props, tail) ← read_members fuel rest;
                     Some (JObject (obj_assign [] props), tail)
            | EmptyString => None
            end
          else '(m, tail) ← read_natural (String c rest); Some (JNumber m, tail)
      end
  end
with read_elements (fuel : nat) (s : string) : option (list JSONValue * string) :=
  match fuel with
  | 0 => None
  | S fuel =>
      '(v, tail) ← read_value fuel s;
      match skip_ws tail with
      | String c rest =>
          if nat_of_ascii c =? 44 then
            '(vs, tail') ← read_elements fuel rest; Some (v :: vs, tail')
          else if nat_of_ascii c =? 93 then Some ([v], rest)
          else None
      | EmptyString => None
      end
  end
with read_members (fuel : nat) (s : string) : option (JSONObject * string) :=
  match fuel with
  | 0 => None
  | S fuel =>
      match skip_ws s with
      | String q rest =>
          if nat_of_ascii q =? 34 then
            '(k, tail) ← read_chars rest;
            match skip_ws tail with
            | String colon tail' =>
                if nat_of_ascii colon =? 58 then
                  '(v, tail'') ← read_value fuel tail';
                  match skip_ws tail'' with
                  | String c rest' =>
                      if nat_of_ascii c =? 44 then
                        '(kvs, end_) ← read_members fuel rest'; Some ((k, v) :: kvs, end_)
                      else if nat_of_ascii c =? 125 then Some ([(k, v)], rest')
                      else None
                  | EmptyString => None
                  end
                else None
            | EmptyString => None
            end
          else None
      | EmptyString => None
      end
  end.

(** [JSON.parse]: one value, then nothing but white space. *)
Definition read (text : string) : option JSONValue :=
  '(v, tail) ← read_value (2 * String.length text + 2) text;
  match skip_ws tail with
  | EmptyString => Some v
  | String _ _ => None
  end.

(** *** Values as the engine builds them

    [canonical v]: every object inside [v] lists its properties as the
    engine enumerates them, that is, creating them one by one yields the
    same list.  [need v] bounds the fuel that reading the text of [v]
    takes, and [boundary s] tells that [s] cannot continue a number. *)
Fixpoint canonical (v : JSONValue) : Prop :=
  match v with
  | JArray items =>
      (fix all (l : list JSONValue) : Prop :=
         match l with
         | [] => True
         | x :: l' => canonical x ∧ all l'
         end) items
  | JObject props =>
      obj_assign [] props = props
      ∧ (fix all (l : JSONObject) : Prop :=
           match l with
           | [] => True
           | kv :: l' => canonical kv.2 ∧ all l'
           end) props
  | JNull | JBool _ | JNumber _ | JString _ => True
  end.

Fixpoint need (v : JSONValue) : nat :=
  match v with
  | JArray items =>
      S ((fix sum (l : list JSONValue) : nat :=
            match l with
            | [] => 0
            | x :: l' => S (need x + sum l')
            end) items)
  | JObject props =>
      S ((fix sum (l : JSONObject) : nat :=
            match l with
            | [] => 0
            | kv :: l' => S (need kv.2 + sum l')
            end) props)
  | JNull | JBool _ | JNumber _ | JString _ => 1
  end.

Definition boundary (s : string) : bool :=
  match s with
  | EmptyString => true
  | String c _ =>
      let n := nat_of_ascii c in (n =? 44) || (n =? 93) || (n =? 125)
  end.

Fixpoint need_items (l : list JSONValue) : nat :=
  match l with
  | [] => 0
  | x :: l' => S (need x + need_items l')
  end.

Fixpoint need_props (l : JSONObject) : nat :=
  match l with
  | [] => 0
  | kv :: l' => S (need kv.2 + need_props l')
  end.

(** The text of one property of an object. *)
Definition member (kv : string * JSONValue) : string :=
  quote kv.1 +:+ ":" +:+ stringify kv.2.

(** Reading the text of [x] yields [x] and stops where the text stops. *)
Definition reads_back (x : JSONValue) : Prop :=
  ∀ fuel rest, need x ≤ fuel → boundary rest = true →
    read_value fuel (stringify x +:+ rest) = Some (x, rest).

Definition continue_with (c : ascii) (r : option (string * string))
    : option (string * string) :=
  match r with
  | Some (str, tail) => Some (String c str, tail)
  | None => None
  end.

(** The text of a value starts with a character that is neither white
    space nor a closing bracket. *)
Definition opens_value (c : ascii) : Prop :=
  is_ws c = false ∧ (nat_of_ascii c =? 93) = false ∧ (nat_of_ascii c =? 125) = false.

(** *** Messages and built-in names *)

Definition show_operand (v : JSONValue) : string :=
  match v with
  | JString s => s
  | _ => stringify v
  end.

Definition message (f : fault) : string :=
  match f with
  | BadJSON text =>
      match text with
      | String c _ =>
          "Unexpected token '" +:+ str1 c +:+ "', " +:+ str1 dquote +:+ text
          +:+ str1 dquote +:+ " is not valid JSON"
      | EmptyString => "Unexpected end of JSON input"
      end
  | ReadOfNull property =>
      "Cannot read properties of null (reading '" +:+ property +:+ "')"
  | WriteOfNull property =>
      "Cannot set properties of null (setting '" +:+ property +:+ "')"
  | NullToObject => "Cannot convert undefined or null to object"
  | InOperand property operand =>
      "Cannot use 'in' operator to search for '" +:+ property +:+ "' in "
      +:+ show_operand operand
  end.

(** The names of [Array.prototype] (ECMA-262, 2023 edition). *)
Definition Array_prototype : list string :=
  [ "at"; "concat"; "copyWithin"; "entries"; "every"; "fill"; "filter"; "find";
    "findIndex"; "findLast"; "findLastIndex"; "flat"; "flatMap"; "forEach";
    "includes"; "indexOf"; "join"; "keys"; "lastIndexOf"; "map"; "pop"; "push";
    "reduce"; "reduceRight"; "reverse"; "shift"; "slice"; "some"; "sort";
    "splice"; "toReversed"; "toSorted"; "toSpliced"; "unshift"; "values"; "with" ].

Definition engine : Engine := {|
  JSON_stringify := stringify;
  JSON_parse := read;
  fault_message := message;
  Array_prototype_has := λ k, existsb (String.eqb k) Array_prototype;
|}.

(** A store holding [text] under [key], and a silent console. *)
Definition world_with (key text : string) : World :=
  mkWorld {[ key := text ]} [].

Definition empty_world : World := mkWorld ∅ [].
End Reference.

(** ** Vocabulary of the statements *)

(** The invariant of [StorageResult]: a success carries no error, a
    failure carries no data. *)
Definition well_formed (r : StorageResult) : Prop :=
  (success r = true → error r = None) ∧ (success r = false → data r = None).

(** [key] has no entry, or an empty one. *)
Definition absent (w : World) (key : string) : Prop :=
  localStorage w !! key = None ∨ localStorage w !! key = Some EmptyString.

(** [key] holds the non-empty [text]. *)
Definition holds_text (w : World) (key text : string) : Prop :=
  localStorage w !! key = Some text ∧ text ≠ EmptyString.

(** The world after [localStorage.setItem(key, text)]. *)
Definition write_text (key text : string) (w : World) : World :=
  mkWorld (<[key := text]> (localStorage w)) (console w).

(** The world after [console.error(e)]. *)
Definition log (e : JSError) (w : World) : World :=
  mkWorld (localStorage w) (console w ++ [e]).

(** The error that the JavaScript read throws and logs for a key
    without entry. *)
Definition not_found (key : string) : JSError :=
  mkError PlainError (key +:+ " not found in local storage.").

(** A value is JSON-serializable when the engine prints it as a non-empty
    text that it reads back as the same value. *)
Definition serializable `{Engine} (v : JSONValue) : Prop :=
  JSON_stringify v ≠ EmptyString ∧ JSON_parse (JSON_stringify v) = Some v.

(** The entry that the TypeScript preserve mode writes over an object [o]:
    [{...o, ...fresh}] where [fresh] are the pairs of [value] whose key
    [o] does not own. *)
Definition preserved (o value : JSONObject) : JSONObject :=
  obj_assign (obj_assign [] o)
    (List.filter (λ kv, negb (has_own (JObject o) kv.1)) value).

(** The entry that the TypeScript update writes over an object [o]:
    [{...o, ...present}] where [present] are the pairs of [updates] whose
    key [o] owns. *)
Definition updated (o updates : JSONObject) : JSONObject :=
  obj_assign (obj_assign [] o)
    (List.filter (λ kv, has_own (JObject o) kv.1) updates).

(** Values used in the runs on the reference engine. *)
Definition settings_off : JSONValue := JObject [("darkMode", JBool false)].

Definition settings_on : JSONValue := JObject [("darkMode", JBool true)].

Definition ada : JSONValue := JObject [("name", JString "Ada"); ("age", JNumber 36)].

(** *** Frames and outcomes *)




(** The outcome [out] of a writing TypeScript operation on [key] from the
    world [w] is all or nothing: a result that reports a failure with the
    world untouched, or a success with data and the text of that data
    written under [key]. *)
Definition all_or_nothing `{Engine} (key : string) (w : World)
    (out : completion StorageResult * World) : Prop :=
  ∃ r, out.1 = Return r
       ∧ if success r
         then ∃ d, data r = Some d ∧ out.2 = write_text key (JSON_stringify d) w
         else out.2 = w.

(** Values used in the further runs on the reference engine: a stored
    object, an object that shares one key with it, and the store that
    holds the text of [v] under the key [k]. *)
Definition a1 : JSONObject := [("a", JNumber 1)].

Definition a99_b2 : JSONObject := [("a", JNumber 99); ("b", JNumber 2)].

Definition holding (v : JSONValue) : World :=
  Reference.world_with "k" (@JSON_stringify Reference.engine v).

(** * Properties *)

Section Objects.
Implicit Types (o t s : JSONObject) (k : string) (v : JSONValue).

Lemma obj_lookup_None k o : obj_lookup k o = None ↔ k ∉ o.*1.
Proof.
  induction o as [|[k' v'] o IH]; simpl.
  - split; [intros _; apply not_elem_of_nil | done].
  - destruct (String.eqb_spec k' k) as [->|Hne].
    + split; [done | intros []; left].
    + rewrite IH, not_elem_of_cons. split; [intros ?; split; [congruence | done] | by intros [_ ?]].
Qed.

Lemma obj_lookup_is_Some k o : is_Some (obj_lookup k o) ↔ k ∈ o.*1.
Proof.
  rewrite <- not_eq_None_Some, obj_lookup_None.
  destruct (decide (k ∈ o.*1)); naive_solver.
Qed.

Lemma obj_lookup_replace k k' v o :
  obj_lookup k' (obj_replace k v o)
  = if String.eqb k k' then (λ _, v) <$> obj_lookup k' o else obj_lookup k' o.
Proof.
  induction o as [|[k1 v1] o IH]; simpl; [by destruct (String.eqb k k')|].
  destruct (String.eqb_spec k1 k) as [->|Hne1]; simpl.
  - by destruct (String.eqb_spec k k').
  - rewrite IH. destruct (String.eqb_spec k k') as [<-|Hne]; [|done].
    by destruct (String.eqb_spec k1 k).
Qed.

Lemma obj_lookup_insert_index i k k' v o :
  obj_lookup k o = None →
  obj_lookup k' (obj_insert_index i k v o)
  = if String.eqb k k' then Some v else obj_lookup k' o.
Proof.
  induction o as [|[k1 v1] o IH]; simpl; [done|].
  destruct (String.eqb_spec k1 k) as [->|Hne1]; [done|]. intros Hk.
  destruct (array_index k1) as [j|]; [destruct (j <? i)%N|]; simpl; try done.
  rewrite IH by done. destruct (String.eqb_spec k k') as [<-|Hne]; [|done].
  by destruct (String.eqb_spec k1 k).
Qed.

Lemma obj_lookup_app_last k k' v o :
  obj_lookup k o = None →
  obj_lookup k' (o ++ [(k, v)]) = if String.eqb k k' then Some v else obj_lookup k' o.
Proof.
  induction o as [|[k1 v1] o IH]; simpl; [done|].
  destruct (String.eqb_spec k1 k) as [->|Hne1]; [done|]. intros Hk.
  rewrite IH by done. destruct (String.eqb_spec k k') as [<-|Hne]; [|done].
  by destruct (String.eqb_spec k1 k).
Qed.

Lemma obj_lookup_set k k' v o :
  obj_lookup k' (obj_set k v o) = if String.eqb k k' then Some v else obj_lookup k' o.
Proof.
  unfold obj_set. destruct (obj_lookup k o) as [x|] eqn:Hk.
  - rewrite obj_lookup_replace. destruct (String.eqb_spec k k') as [<-|]; [|done].
    by rewrite Hk.
  - destruct (array_index k); [by apply obj_lookup_insert_index | by apply obj_lookup_app_last].
Qed.

Lemma obj_lookup_set_eq k v o : obj_lookup k (obj_set k v o) = Some v.
Proof. by rewrite obj_lookup_set, String.eqb_refl. Qed.

Lemma obj_lookup_set_ne k k' v o : k ≠ k' → obj_lookup k' (obj_set k v o) = obj_lookup k' o.
Proof. intros Hne. rewrite obj_lookup_set. by destruct (String.eqb_spec k k'). Qed.

Lemma obj_replace_keys k v o : (obj_replace k v o).*1 = o.*1.
Proof.
  induction o as [|[k1 v1] o IH]; simpl; [done|].
  destruct (String.eqb k1 k); simpl; [done|]. by f_equal.
Qed.

Lemma obj_set_keys_present k v o : k ∈ o.*1 → (obj_set k v o).*1 = o.*1.
Proof.
  intros [x Hx]%obj_lookup_is_Some. unfold obj_set. rewrite Hx. apply obj_replace_keys.
Qed.

Lemma obj_assign_lookup k t s :
  NoDup s.*1 →
  obj_lookup k (obj_assign t s) = from_option Some (obj_lookup k t) (obj_lookup k s).
Proof.
  unfold obj_assign. revert t. induction s as [|[k1 v1] s IH]; intros t Hnd; simpl; [done|].
  apply NoDup_cons in Hnd as [Hnin Hnd]. simpl in Hnin. rewrite IH by done. simpl.
  destruct (String.eqb_spec k1 k) as [->|Hne].
  - apply obj_lookup_None in Hnin. rewrite Hnin. simpl. apply obj_lookup_set_eq.
  - by rewrite obj_lookup_set_ne.
Qed.

Lemma obj_assign_keys_present t s :
  (∀ k, k ∈ s.*1 → k ∈ t.*1) → (obj_assign t s).*1 = t.*1.
Proof.
  unfold obj_assign. revert t. induction s as [|[k1 v1] s IH]; intros t Hin; simpl; [done|].
  assert (Hk : (obj_set k1 v1 t).*1 = t.*1).
  { apply obj_set_keys_present, Hin. simpl. left. }
  rewrite IH; [done|]. intros k Hk'. rewrite Hk. apply Hin. simpl. by right.
Qed.

Lemma obj_assign_nil_lookup k o :
  NoDup o.*1 → obj_lookup k (obj_assign [] o) = obj_lookup k o.
Proof. intros Hnd. rewrite obj_assign_lookup by done. by destruct (obj_lookup k o). Qed.

Lemma filter_keys_NoDup (p : string * JSONValue → bool) o :
  NoDup o.*1 → NoDup (List.filter p o).*1.
Proof.
  induction o as [|[k v] o IH]; simpl; [done|].
  rewrite NoDup_cons. intros [Hnin Hnd].
  destruct (p (k, v)); simpl; [|by apply IH].
  apply NoDup_cons. split; [|by apply IH].
  intros Hin. apply Hnin. apply list_elem_of_fmap in Hin as [[k' v'] [-> Hin]].
  apply list_elem_of_In, filter_In in Hin as [Hin _].
  apply list_elem_of_fmap. exists (k', v'). split; [done|]. by apply list_elem_of_In.
Qed.

Lemma obj_lookup_filter (p : string → bool) k o :
  obj_lookup k (List.filter (λ kv, p kv.1) o) = if p k then obj_lookup k o else None.
Proof.
  induction o as [|[k1 v1] o IH]; simpl; [by destruct (p k)|].
  destruct (p k1) eqn:Hp1; simpl; destruct (String.eqb_spec k1 k) as [->|Hne];
    rewrite ?Hp1; try done.
  rewrite IH. by rewrite Hp1.
Qed.
End Objects.

(** An object whose keys are distinct names, none of them an array index,
    is listed as the engine builds it. *)
Lemma obj_assign_named (t s : JSONObject) :
  NoDup (t ++ s).*1 → Forall (λ kv, array_index kv.1 = None) s →
  obj_assign t s = t ++ s.
Proof.
  unfold obj_assign. revert t. induction s as [|[k v] s IH]; intros t Hnd Hs; simpl.
  - by rewrite app_nil_r.
  - apply Forall_cons in Hs as [Hk Hs]. simpl in Hk.
    assert (Hfresh : obj_lookup k t = None).
    { apply obj_lookup_None. rewrite fmap_app in Hnd. apply NoDup_app in Hnd as (_ & Hdis & _).
      intros Hin. apply (Hdis k Hin). simpl. left. }
    unfold obj_set at 2. rewrite Hfresh, Hk.
    rewrite IH; [by rewrite <- app_assoc | by rewrite <- app_assoc | done].
Qed.

Lemma append_cons (x : ascii) (a b : string) : String x a +:+ b = String x (a +:+ b).
Proof. reflexivity. Qed.

Lemma append_nil_l (b : string) : EmptyString +:+ b = b.
Proof. reflexivity. Qed.

Lemma append_assoc (a b c : string) : (a +:+ b) +:+ c = a +:+ (b +:+ c).
Proof. induction a as [|x a IH]; [done|]. by rewrite !append_cons, IH. Qed.

Lemma append_nil_r (a : string) : a +:+ EmptyString = a.
Proof. induction a as [|x a IH]; [done|]. by rewrite append_cons, IH. Qed.

Lemma length_append (a b : string) :
  String.length (a +:+ b) = String.length a + String.length b.
Proof. induction a as [|x a IH]; [done|]. rewrite append_cons. simpl. by rewrite IH. Qed.

(** ** The reference codec reads back what it prints *)

Ltac string_norm :=
  repeat (rewrite append_assoc || rewrite append_cons || rewrite append_nil_l).

Section Reference_codec.
Import Reference.

Lemma read_chars_plain (c : ascii) (s : string) :
  32 ≤ nat_of_ascii c → nat_of_ascii c ≠ 34 → nat_of_ascii c ≠ 92 →
  quote_char c = str1 c ∧ read_chars (String c s) = continue_with c (read_chars s).
Proof.
  intros H32 H34 H92. unfold quote_char. cbn [read_chars].
  apply Nat.eqb_neq in H34 as ->. apply Nat.eqb_neq in H92 as ->.
  assert ((nat_of_ascii c <? 32) = false) as -> by by apply Nat.ltb_ge.
  repeat match goal with
         | |- context [nat_of_ascii c =? ?k] =>
             replace (nat_of_ascii c =? k) with false by (symmetry; apply Nat.eqb_neq; lia)
         end.
  done.
Qed.

Lemma read_chars_escaped (n : nat) (s : string) :
  n < 32 ∨ n = 34 ∨ n = 92 →
  read_chars (quote_char (ascii_of_nat n) +:+ s)
  = continue_with (ascii_of_nat n) (read_chars s).
Proof.
  intros Hn.
  do 32 (destruct n as [|n];
         [match goal with
          | |- context [quote_char ?c] =>
              let q := eval vm_compute in (quote_char c) in change (quote_char c) with q
          end; string_norm; reflexivity|]).
  do 2 (destruct n as [|n]; [lia|]).
  destruct n as [|n]; [reflexivity|].
  do 57 (destruct n as [|n]; [lia|]).
  destruct n as [|n]; [reflexivity|]. lia.
Qed.

Lemma read_chars_quote_char (c : ascii) (s : string) :
  read_chars (quote_char c +:+ s) = continue_with c (read_chars s).
Proof.
  destruct (decide (nat_of_ascii c < 32 ∨ nat_of_ascii c = 34 ∨ nat_of_ascii c = 92))
    as [Hn|Hn].
  - rewrite <- (ascii_nat_embedding c). by apply read_chars_escaped.
  - destruct (read_chars_plain c s) as [-> <-]; [lia..|]. reflexivity.
Qed.

Lemma read_chars_quote_chars (s rest : string) :
  read_chars (quote_chars s +:+ String dquote rest) = Some (s, rest).
Proof.
  induction s as [|c s IH]; [reflexivity|].
  cbn [quote_chars]. by rewrite append_assoc, read_chars_quote_char, IH.
Qed.

Lemma boundary_not_digit (c : ascii) (s : string) :
  boundary (String c s) = true → digit_of c = None ∧ ends_integer (String c s) = true.
Proof.
  unfold boundary, digit_of, ends_integer.
  intros [[->%Nat.eqb_eq | ->%Nat.eqb_eq]%orb_true_iff | ->%Nat.eqb_eq]%orb_true_iff; done.
Qed.

Lemma read_digits_boundary (acc : Z) (rest : string) :
  boundary rest = true → read_digits acc rest = (acc, rest).
Proof.
  destruct rest as [|c s]; [done|]. intros [Hd _]%boundary_not_digit.
  cbn [read_digits]. by rewrite Hd.
Qed.

Lemma ends_integer_boundary (rest : string) : boundary rest = true → ends_integer rest = true.
Proof. destruct rest as [|c s]; [done|]. by intros [_ ?]%boundary_not_digit. Qed.

Lemma read_digits_uint (u : Decimal.uint) (p : positive) (rest : string) :
  boundary rest = true →
  read_digits (Z.pos p) (NilEmpty.string_of_uint u +:+ rest)
  = (Z.pos (Pos.of_uint_acc u p), rest).
Proof.
  intros Hrest. revert p.
  induction u as [|u IH|u IH|u IH|u IH|u IH|u IH|u IH|u IH|u IH|u IH]; intros p;
    cbn [NilEmpty.string_of_uint Pos.of_uint_acc];
    [by apply read_digits_boundary|..];
    rewrite append_cons; cbn [read_digits];
    match goal with
    | |- context [digit_of ?c] =>
        let d := eval vm_compute in (digit_of c) in change (digit_of c) with d
    end; cbn iota beta;
    match goal with
    | |- read_digits ?z _ = (Z.pos (Pos.of_uint_acc _ ?q), _) =>
        replace z with (Z.pos q) by lia
    end; apply IH.
Qed.

Lemma to_uint_no_leading_zero (p : positive) (u : Decimal.uint) :
  Pos.to_uint p ≠ Decimal.D0 u.
Proof.
  intros E. pose proof (Unsigned.to_of (Pos.to_uint p)) as Hn.
  rewrite Unsigned.of_to in Hn. cbn [N.to_uint] in Hn.
  rewrite E in Hn. unfold Decimal.unorm in Hn. cbn [Decimal.nzhead] in Hn.
  destruct (Decimal.nzhead u) eqn:Hu; try discriminate.
  - injection Hn as ->. by apply (Unsigned.to_uint_nonzero p).
  - by apply (nzhead_nonzero u u0).
Qed.

Lemma read_natural_pos (p : positive) (rest : string) :
  boundary rest = true →
  read_natural (NilEmpty.string_of_uint (Pos.to_uint p) +:+ rest) = Some (Z.pos p, rest).
Proof.
  intros Hrest. pose proof (Unsigned.of_to p) as Hp.
  destruct (Pos.to_uint p) as [|u|u|u|u|u|u|u|u|u|u] eqn:E;
    [by apply Unsigned.to_uint_nonnil in E | by apply to_uint_no_leading_zero in E|..];
    cbn [NilEmpty.string_of_uint Pos.of_uint] in *; rewrite append_cons;
    unfold read_natural;
    match goal with
    | |- context [digit_of ?c] =>
        let d := eval vm_compute in (digit_of c) in change (digit_of c) with d
    end; cbn iota beta;
    rewrite read_digits_uint by done; rewrite ends_integer_boundary by done;
    by injection Hp as ->.
Qed.

Lemma read_natural_zero (rest : string) :
  boundary rest = true → read_natural (String "0" rest) = Some (0%Z, rest).
Proof.
  intros Hrest. unfold read_natural. change (digit_of "0") with (Some 0%Z). cbn iota beta.
  destruct rest as [|c s]; [done|].
  destruct (boundary_not_digit c s Hrest) as [-> ->]. done.
Qed.

Lemma JSONValue_nested_ind (P : JSONValue → Prop) :
  P JNull → (∀ b, P (JBool b)) → (∀ n, P (JNumber n)) → (∀ s, P (JString s)) →
  (∀ items, Forall P items → P (JArray items)) →
  (∀ props, Forall (λ kv, P kv.2) props → P (JObject props)) →
  ∀ v, P v.
Proof.
  intros Hnull Hbool Hnum Hstr Harr Hobj.
  refine (fix IH (v : JSONValue) : P v :=
            match v with
            | JNull => Hnull
            | JBool b => Hbool b
            | JNumber n => Hnum n
            | JString s => Hstr s
            | JArray items =>
                Harr items
                  ((fix go (l : list JSONValue) : Forall P l :=
                      match l with
                      | [] => List.Forall_nil _
                      | x :: l' => List.Forall_cons _ _ _ (IH x) (go l')
                      end) items)
            | JObject props =>
                Hobj props
                  ((fix go (l : JSONObject) : Forall (λ kv, P kv.2) l :=
                      match l with
                      | [] => List.Forall_nil _
                      | kv :: l' => List.Forall_cons _ _ _ (IH kv.2) (go l')
                      end) props)
            end).
Qed.

Lemma canonical_array items : canonical (JArray items) ↔ Forall canonical items.
Proof.
  induction items as [|x l IH]; [done|].
  rewrite Forall_cons. rewrite <- IH. done.
Qed.

Lemma canonical_object props :
  canonical (JObject props)
  ↔ obj_assign [] props = props ∧ Forall (λ kv, canonical kv.2) props.
Proof.
  assert (Hall : ∀ l : JSONObject,
             (fix all (l : JSONObject) : Prop :=
                match l with [] => True | kv :: l' => canonical kv.2 ∧ all l' end) l
             ↔ Forall (λ kv, canonical kv.2) l).
  { induction l as [|kv l IH]; [done|]. by rewrite Forall_cons, <- IH. }
  cbn [canonical]. by rewrite Hall.
Qed.

Lemma read_value_null f rest : read_value (S f) ("null" +:+ rest) = Some (JNull, rest).
Proof. reflexivity. Qed.

Lemma read_value_true f rest : read_value (S f) ("true" +:+ rest) = Some (JBool true, rest).
Proof. reflexivity. Qed.

Lemma read_value_false f rest : read_value (S f) ("false" +:+ rest) = Some (JBool false, rest).
Proof. reflexivity. Qed.

Lemma read_value_string f rest :
  read_value (S f) (String dquote rest)
  = '(str, tail) ← read_chars rest; Some (JString str, tail).
Proof. reflexivity. Qed.

Lemma read_value_minus f rest :
  read_value (S f) (String "-" rest)
  = '(m, tail) ← read_natural rest; Some (JNumber (- m), tail).
Proof. reflexivity. Qed.

Lemma read_value_digit f (c : ascii) rest :
  is_Some (digit_of c) →
  read_value (S f) (String c rest)
  = '(m, tail) ← read_natural (String c rest); Some (JNumber m, tail).
Proof.
  intros Hd.
  destruct c as [[] [] [] [] [] [] [] []];
    try (vm_compute in Hd; by destruct Hd); reflexivity.
Qed.

Lemma read_value_array f rest :
  read_value (S f) (String "[" rest)
  = match skip_ws rest with
    | String c' rest' =>
        if nat_of_ascii c' =? 93 then Some (JArray [], rest')
        else '(items, tail) ← read_elements f rest; Some (JArray items, tail)
    | EmptyString => None
    end.
Proof. reflexivity. Qed.

Lemma read_value_object f rest :
  read_value (S f) (String "{" rest)
  = match skip_ws rest with
    | String c' rest' =>
        if nat_of_ascii c' =? 125 then Some (JObject [], rest')
        else '(props, tail) ← read_members f rest;
             Some (JObject (obj_assign [] props), tail)
    | EmptyString => None
    end.
Proof. reflexivity. Qed.

Lemma read_elements_S f s :
  read_elements (S f) s
  = '(v, tail) ← read_value f s;
    match skip_ws tail with
    | String c rest =>
        if nat_of_ascii c =? 44 then
          '(vs, tail') ← read_elements f rest; Some (v :: vs, tail')
        else if nat_of_ascii c =? 93 then Some ([v], rest)
        else None
    | EmptyString => None
    end.
Proof. reflexivity. Qed.

Lemma read_members_S f rest :
  read_members (S f) (String dquote rest)
  = '(k, tail) ← read_chars rest;
    match skip_ws tail with
    | String colon tail' =>
        if nat_of_ascii colon =? 58 then
          '(v, tail2) ← read_value f tail';
          match skip_ws tail2 with
          | String c rest' =>
              if nat_of_ascii c =? 44 then
                '(kvs, end_) ← read_members f rest'; Some ((k, v) :: kvs, end_)
              else if nat_of_ascii c =? 125 then Some ([(k, v)], rest')
              else None
          | EmptyString => None
          end
        else None
    | EmptyString => None
    end.
Proof. reflexivity. Qed.

Lemma print_number_head (n : Z) (rest : string) :
  ∃ c s', print_number n +:+ rest = String c s'
          ∧ (nat_of_ascii c = 45 ∨ 48 ≤ nat_of_ascii c ≤ 57).
Proof.
  unfold print_number. destruct n as [|p|p]; cbn [Z.to_int NilEmpty.string_of_int].
  - do 2 eexists. split; [reflexivity|]. right. vm_compute. lia.
  - destruct (Pos.to_uint p) eqn:E; [by apply Unsigned.to_uint_nonnil in E|..];
      (do 2 eexists; split; [reflexivity|]; right; vm_compute; lia).
  - do 2 eexists. split; [reflexivity|]. by left.
Qed.

Lemma uint_head (p : positive) (rest : string) :
  ∃ c s', NilEmpty.string_of_uint (Pos.to_uint p) +:+ rest = String c s'
          ∧ is_Some (digit_of c).
Proof.
  destruct (Pos.to_uint p) eqn:E; [by apply Unsigned.to_uint_nonnil in E|..];
    (do 2 eexists; split; [reflexivity|]; vm_compute; by eexists).
Qed.

Lemma stringify_head (v : JSONValue) (rest : string) :
  ∃ c s', stringify v +:+ rest = String c s' ∧ opens_value c.
Proof.
  destruct v as [|[]|n|s|items|props]; try (do 2 eexists; split; [reflexivity | done]).
  destruct (print_number_head n rest) as (c & s' & Hs & Hc).
  exists c, s'. split; [exact Hs|]. unfold opens_value, is_ws.
  destruct Hc as [-> | Hc]; [done|].
  repeat split; repeat (apply orb_false_iff; split); apply Nat.eqb_neq; lia.
Qed.

Lemma skip_ws_value (v : JSONValue) (rest : string) :
  ∃ c s', stringify v +:+ rest = String c s' ∧ skip_ws (stringify v +:+ rest) = String c s'
          ∧ opens_value c.
Proof.
  destruct (stringify_head v rest) as (c & s' & Hs & Hc). exists c, s'.
  split; [done|]. split; [|done]. rewrite Hs. cbn [skip_ws]. by destruct Hc as [-> _].
Qed.

Lemma join_comma_cons (a : string) (l : list string) (t : string) :
  join_comma (a :: l) +:+ t
  = a +:+ match l with [] => t | _ :: _ => String "," (join_comma l +:+ t) end.
Proof. destruct l; [done|]. cbn [join_comma]. by string_norm. Qed.

Lemma join_comma_more (a b : string) (l : list string) (t : string) :
  join_comma (a :: b :: l) +:+ t = a +:+ String "," (join_comma (b :: l) +:+ t).
Proof. apply join_comma_cons. Qed.

Lemma skip_ws_keep (c : ascii) (s : string) :
  is_ws c = false → skip_ws (String c s) = String c s.
Proof. intros Hc. cbn [skip_ws]. by rewrite Hc. Qed.

Lemma read_elements_join (items : list JSONValue) :
  Forall reads_back items → items ≠ [] →
  ∀ f rest, need_items items ≤ f →
    read_elements f (join_comma (List.map stringify items) +:+ String "]" rest)
    = Some (items, rest).
Proof.
  induction 1 as [|x l Hx _ IH]; [done|]. intros _ f rest Hf.
  destruct f as [|f]; [cbn in Hf; lia|]. cbn [need_items] in Hf.
  rewrite read_elements_S. destruct l as [|y l].
  - cbn [List.map join_comma]. rewrite Hx by (done || lia). reflexivity.
  - change (List.map stringify (x :: y :: l))
      with (stringify x :: stringify y :: List.map stringify l).
    rewrite join_comma_more.
    change (stringify y :: List.map stringify l) with (List.map stringify (y :: l)).
    rewrite Hx by (done || lia). cbn [mbind option_bind].
    rewrite skip_ws_keep by done. change (nat_of_ascii "," =? 44) with true. cbn iota.
    rewrite IH by (done || lia). reflexivity.
Qed.

Lemma member_text (k : string) (x : JSONValue) (t : string) :
  member (k, x) +:+ t
  = String dquote (quote_chars k +:+ String dquote (String ":" (stringify x +:+ t))).
Proof. unfold member, quote, str1. cbn [fst snd]. by string_norm. Qed.

Lemma read_members_join (props : JSONObject) :
  Forall (λ kv, reads_back kv.2) props → props ≠ [] →
  ∀ f rest, need_props props ≤ f →
    read_members f (join_comma (List.map member props) +:+ String "}" rest)
    = Some (props, rest).
Proof.
  induction 1 as [|[k x] l Hx _ IH]; [done|]. intros _ f rest Hf.
  destruct f as [|f]; [cbn in Hf; lia|]. cbn [need_props snd] in Hf, Hx.
  destruct l as [|y l].
  - cbn [List.map join_comma]. rewrite member_text.
    rewrite read_members_S, read_chars_quote_chars. cbn [mbind option_bind].
    rewrite skip_ws_keep by done. change (nat_of_ascii ":" =? 58) with true. cbn iota.
    rewrite Hx by (done || lia). reflexivity.
  - change (List.map member ((k, x) :: y :: l))
      with (member (k, x) :: member y :: List.map member l).
    rewrite join_comma_more.
    change (member y :: List.map member l) with (List.map member (y :: l)).
    rewrite member_text, read_members_S, read_chars_quote_chars. cbn [mbind option_bind].
    rewrite skip_ws_keep by done. change (nat_of_ascii ":" =? 58) with true. cbn iota.
    rewrite Hx by (done || lia). cbn [mbind option_bind].
    rewrite skip_ws_keep by done. change (nat_of_ascii "," =? 44) with true. cbn iota.
    rewrite IH by (done || lia). reflexivity.
Qed.

Lemma reads_back_canonical (v : JSONValue) : canonical v → reads_back v.
Proof.
  induction v as [|b|n|s|items IH|props IH] using JSONValue_nested_ind;
    intros Hcan fuel rest Hfuel Hrest;
    (destruct fuel as [|f]; [cbn in Hfuel; lia|]).
  - apply read_value_null.
  - destruct b; [apply read_value_true | apply read_value_false].
  - cbn [stringify]. unfold print_number. destruct n as [|p|p];
      cbn [Z.to_int NilEmpty.string_of_int].
    + change (NilEmpty.string_of_uint Decimal.zero +:+ rest) with (String "0" rest).
      rewrite read_value_digit by (vm_compute; by eexists). by rewrite read_natural_zero.
    + pose proof (read_natural_pos p rest Hrest) as Hnat.
      destruct (uint_head p rest) as (c & s' & Hs & Hc). rewrite Hs in *.
      by rewrite read_value_digit, Hnat.
    + rewrite append_cons, read_value_minus. by rewrite read_natural_pos.
  - cbn [stringify]. unfold quote, str1. string_norm.
    by rewrite read_value_string, read_chars_quote_chars.
  - apply canonical_array in Hcan. cbn [stringify]. string_norm.
    rewrite read_value_array.
    assert (Hback : Forall reads_back items).
    { rewrite Forall_forall in *. naive_solver. }
    destruct items as [|x l]; [reflexivity|].
    change (need (JArray (x :: l))) with (S (need_items (x :: l))) in Hfuel.
    cbn [List.map]. rewrite join_comma_cons.
    destruct (skip_ws_value x
                match List.map stringify l with
                | [] => String "]" rest
                | _ :: _ => String "," (join_comma (List.map stringify l) +:+ String "]" rest)
                end) as (c & s' & Hs & -> & _ & -> & _).
    rewrite <- join_comma_cons.
    change (stringify x :: List.map stringify l) with (List.map stringify (x :: l)).
    by rewrite read_elements_join by (done || lia).
  - apply canonical_object in Hcan as [Hassign Hcan]. cbn [stringify]. string_norm.
    rewrite read_value_object.
    assert (Hback : Forall (λ kv, reads_back kv.2) props).
    { rewrite Forall_forall in *. naive_solver. }
    destruct props as [|[k x] l]; [reflexivity|].
    change (need (JObject ((k, x) :: l))) with (S (need_props ((k, x) :: l))) in Hfuel.
    change (λ kv : string * JSONValue, quote kv.1 +:+ ":" +:+ stringify kv.2) with member.
    set (text := join_comma (List.map member ((k, x) :: l)) +:+ String "}" rest).
    assert (Hhead : ∃ s', text = String dquote s').
    { unfold text. cbn [List.map]. rewrite join_comma_cons, member_text. by eexists. }
    destruct Hhead as [s' Hs']. rewrite Hs' at 1. cbn [skip_ws].
    change (is_ws dquote) with false. cbn iota. change (nat_of_ascii dquote =? 125) with false.
    cbn iota. unfold text. rewrite read_members_join by (done || lia).
    cbn [mbind option_bind]. by rewrite Hassign.
Qed.

Lemma print_number_nonempty (n : Z) : 1 ≤ String.length (print_number n).
Proof.
  destruct (print_number_head n EmptyString) as (c & s' & Hs & _).
  rewrite append_nil_r in Hs. rewrite Hs. cbn. lia.
Qed.

Lemma length_join_more (a b : string) (l : list string) :
  String.length (join_comma (a :: b :: l))
  = String.length a + S (String.length (join_comma (b :: l))).
Proof.
  change (join_comma (a :: b :: l)) with (a +:+ "," +:+ join_comma (b :: l)).
  by rewrite !length_append.
Qed.

Lemma need_items_length (items : list JSONValue) :
  Forall (λ x, need x ≤ String.length (stringify x)) items →
  need_items items ≤ S (String.length (join_comma (List.map stringify items))).
Proof.
  induction 1 as [|x l Hx Hl IH]; [cbn; lia|].
  destruct l as [|y l]; [cbn in *; lia|].
  change (List.map stringify (x :: y :: l))
    with (stringify x :: stringify y :: List.map stringify l).
  rewrite length_join_more.
  change (stringify y :: List.map stringify l) with (List.map stringify (y :: l)).
  cbn [need_items] in *. lia.
Qed.

Lemma need_props_length (props : JSONObject) :
  Forall (λ kv, need kv.2 ≤ String.length (stringify kv.2)) props →
  need_props props ≤ S (String.length (join_comma (List.map member props))).
Proof.
  induction 1 as [|[k x] l Hx Hl IH]; [cbn; lia|].
  assert (Hm : need x ≤ String.length (member (k, x))).
  { unfold member. rewrite !length_append. cbn [snd] in *. lia. }
  destruct l as [|y l]; [cbn [List.map join_comma need_props snd] in *; lia|].
  change (List.map member ((k, x) :: y :: l))
    with (member (k, x) :: member y :: List.map member l).
  rewrite length_join_more.
  change (member y :: List.map member l) with (List.map member (y :: l)).
  cbn [need_props snd] in *. lia.
Qed.

Lemma need_length (v : JSONValue) : need v ≤ String.length (stringify v).
Proof.
  induction v as [|b|n|s|items IH|props IH] using JSONValue_nested_ind.
  - cbn. lia.
  - destruct b; cbn; lia.
  - apply print_number_nonempty.
  - cbn. lia.
  - change (need (JArray items)) with (S (need_items items)).
    apply need_items_length in IH. cbn [stringify]. rewrite !length_append.
    cbn [String.length]. lia.
  - change (need (JObject props)) with (S (need_props props)).
    apply need_props_length in IH. cbn [stringify].
    change (λ kv : string * JSONValue, quote kv.1 +:+ ":" +:+ stringify kv.2) with member.
    rewrite !length_append. cbn [String.length]. lia.
Qed.

Theorem read_stringify (v : JSONValue) : canonical v → read (stringify v) = Some v.
Proof.
  intros Hcan. unfold read.
  rewrite <- (append_nil_r (stringify v)) at 2.
  rewrite (reads_back_canonical v Hcan); [done| |done].
  pose proof (need_length v). lia.
Qed.

Lemma stringify_nonempty (v : JSONValue) : stringify v ≠ EmptyString.
Proof.
  intros E. pose proof (need_length v) as Hn. rewrite E in Hn.
  destruct v; cbn in Hn; lia.
Qed.

Lemma canonical_serializable (v : JSONValue) :
  canonical v → serializable (H := engine) v.
Proof.
  intros Hcan. split; [apply stringify_nonempty | by apply read_stringify].
Qed.
End Reference_codec.

Section Read.
Context `{Engine}.

Lemma text_truthy_absent w key : absent w key → text_truthy (localStorage w !! key) = false.
Proof. by intros [-> | ->]. Qed.

Lemma typed_read_absent key w :
  absent w key →
  storageActions.getEntryFromStorage key w
  = (Return (fail (Some (key +:+ " not found in storage."))), w).
Proof.
  intros Habs. unfold storageActions.getEntryFromStorage, try_catch, bind, getItem.
  destruct Habs as [-> | ->]; reflexivity.
Qed.

Lemma typed_read_present key text v w :
  localStorage w !! key = Some text → text ≠ EmptyString → JSON_parse text = Some v →
  storageActions.getEntryFromStorage key w = (Return (succeed v), w).
Proof.
  intros Hk Hne Hp. unfold storageActions.getEntryFromStorage, try_catch, bind, getItem, parse.
  rewrite Hk. simpl. destruct (String.eqb_spec text EmptyString) as [|_]; [done|].
  simpl. by rewrite Hp.
Qed.

Lemma typed_read_corrupt key text w :
  localStorage w !! key = Some text → text ≠ EmptyString → JSON_parse text = None →
  storageActions.getEntryFromStorage key w
  = (Return (fail (Some ("Failed to get entry from storage: "
                         +:+ fault_message (BadJSON text)))), w).
Proof.
  intros Hk Hne Hp. unfold storageActions.getEntryFromStorage, try_catch, bind, getItem, parse.
  rewrite Hk. simpl. destruct (String.eqb_spec text EmptyString) as [|_]; [done|].
  simpl. by rewrite Hp.
Qed.

Lemma typed_read_cases key w :
  ∃ r, storageActions.getEntryFromStorage key w = (Return r, w) ∧ well_formed r
       ∧ (success r = true → is_Some (data r)) ∧ (success r = false → is_Some (error r)).
Proof.
  destruct (localStorage w !! key) as [text|] eqn:Hk.
  - destruct (String.eqb_spec text EmptyString) as [->|Hne].
    + eexists. split; [apply typed_read_absent; by right|]. by repeat split.
    + destruct (JSON_parse text) as [v|] eqn:Hp.
      * eexists. split; [by eapply typed_read_present|]. by repeat split.
      * eexists. split; [by eapply typed_read_corrupt|]. by repeat split.
  - eexists. split; [apply typed_read_absent; by left|]. by repeat split.
Qed.
End Read.

Section Typed_write.
Context `{Engine}.

Lemma bind_Return {A B} (m : JS A) (f : A → JS B) w a w' :
  m w = (Return a, w') → bind m f w = f a w'.
Proof. unfold bind. by intros ->. Qed.

Lemma hasOwnProperty_value v k w :
  v ≠ JNull → hasOwnProperty (Some v) k w = (Return (has_own v k), w).
Proof. by destruct v. Qed.

Lemma includes_app_r needle s1 s2 :
  includes needle s2 = true → includes needle (s1 +:+ s2) = true.
Proof.
  intros Hs2. induction s1 as [|c s1 IH]; simpl; [done|].
  rewrite IH. apply orb_true_r.
Qed.

Lemma not_found_mentioned key :
  storageActions.mentions_not_found (Some (key +:+ " not found in storage.")) = true.
Proof. simpl. by apply includes_app_r. Qed.

Lemma filter_js_quiet {A} (p : A → JS bool) (l : list A) w :
  (∀ a, ∃ c, p a w = (c, w) ∧ c ≠ Unmodelled) →
  ∃ c, filter_js p l w = (c, w) ∧ c ≠ Unmodelled.
Proof.
  intros Hp. induction l as [|a l IH]; simpl; [by eexists|].
  unfold bind. destruct (Hp a) as (c & -> & Hc).
  destruct c as [b|e|]; [|eexists; split; [reflexivity | done]|done].
  destruct IH as (c' & -> & Hc').
  destruct c'; [eexists; split; [reflexivity | done]..|done].
Qed.

Lemma hasOwnProperty_quiet d k w :
  ∃ c, hasOwnProperty d k w = (c, w) ∧ c ≠ Unmodelled.
Proof. destruct d as [[]|]; (eexists; split; [reflexivity | done]). Qed.

Lemma filter_js_absent v l w :
  v ≠ JNull →
  filter_js (λ kv : string * JSONValue, let* own := hasOwnProperty (Some v) kv.1 in ret (negb own)) l w
  = (Return (List.filter (λ kv : string * JSONValue, negb (has_own v kv.1)) l), w).
Proof.
  intros Hv. induction l as [|a l IH]; simpl; [done|].
  rewrite (bind_Return _ _ w (negb (has_own v a.1)) w).
  - rewrite (bind_Return _ _ _ _ _ IH). reflexivity.
  - rewrite (bind_Return _ _ _ _ _ (hasOwnProperty_value v a.1 w Hv)). reflexivity.
Qed.

Lemma filter_js_present v l w :
  v ≠ JNull →
  filter_js (λ kv : string * JSONValue, hasOwnProperty (Some v) kv.1) l w
  = (Return (List.filter (λ kv : string * JSONValue, has_own v kv.1) l), w).
Proof.
  intros Hv. induction l as [|a l IH]; simpl; [done|].
  rewrite (bind_Return _ _ _ _ _ (hasOwnProperty_value v a.1 w Hv)).
  rewrite (bind_Return _ _ _ _ _ IH). reflexivity.
Qed.

(** A plain write stores the text of the value and reports it back. *)
Lemma typed_write_plain key value w :
  storageActions.setItemInStorage key value false w
  = (Return (succeed (JObject value)), write_text key (JSON_stringify (JObject value)) w).
Proof. reflexivity. Qed.

(** Preserve mode on a key without entry is the plain write. *)
Lemma typed_write_absent key value w :
  absent w key →
  storageActions.setItemInStorage key value true w
  = (Return (succeed (JObject value)), write_text key (JSON_stringify (JObject value)) w).
Proof.
  intros Habs. unfold storageActions.setItemInStorage, try_catch. cbn [negb].
  rewrite (bind_Return _ _ _ _ _ (typed_read_absent key w Habs)).
  cbn [success error fail negb andb]. by rewrite not_found_mentioned.
Qed.

Lemma typed_write_preserve key text o value w :
  holds_text w key text → JSON_parse text = Some (JObject o) →
  storageActions.setItemInStorage key value true w
  = (Return (succeed (JObject (preserved o value))),
     write_text key (JSON_stringify (JObject (preserved o value))) w).
Proof.
  intros [Hk Hne] Hp. unfold storageActions.setItemInStorage, try_catch. cbn [negb].
  rewrite (bind_Return _ _ _ _ _ (typed_read_present key text _ w Hk Hne Hp)).
  cbn [success error data succeed negb andb].
  by rewrite (bind_Return _ _ _ _ _ (filter_js_absent (JObject o) value w ltac:(done))).
Qed.

Lemma preserved_existing o value k x :
  NoDup o.*1 → NoDup value.*1 →
  obj_lookup k o = Some x → obj_lookup k (preserved o value) = Some x.
Proof.
  intros Ho Hv Hk. unfold preserved.
  rewrite obj_assign_lookup by by apply filter_keys_NoDup.
  rewrite (obj_lookup_filter (λ k, negb (has_own (JObject o) k))).
  simpl. rewrite Hk. rewrite bool_decide_eq_true_2 by done. simpl.
  by rewrite obj_assign_nil_lookup.
Qed.

Lemma preserved_added o value k :
  NoDup o.*1 → NoDup value.*1 →
  obj_lookup k o = None → obj_lookup k (preserved o value) = obj_lookup k value.
Proof.
  intros Ho Hv Hk. unfold preserved.
  rewrite obj_assign_lookup by by apply filter_keys_NoDup.
  rewrite (obj_lookup_filter (λ k, negb (has_own (JObject o) k))).
  simpl. rewrite Hk. rewrite bool_decide_eq_false_2 by by intros [? ?]. simpl.
  rewrite obj_assign_nil_lookup by done. rewrite Hk. by destruct (obj_lookup k value).
Qed.

(** A failed read other than "not found" aborts the write. *)
Lemma typed_write_corrupt key text value w :
  holds_text w key text → JSON_parse text = None →
  includes "not found"
    ("Failed to get entry from storage: " +:+ fault_message (BadJSON text)) = false →
  storageActions.setItemInStorage key value true w
  = (Return (fail (Some ("Failed to get entry from storage: "
                         +:+ fault_message (BadJSON text)))), w).
Proof.
  intros [Hk Hne] Hp Hmsg. unfold storageActions.setItemInStorage, try_catch. cbn [negb].
  rewrite (bind_Return _ _ _ _ _ (typed_read_corrupt key text w Hk Hne Hp)).
  cbn [success error data fail negb andb].
  unfold storageActions.mentions_not_found. by rewrite Hmsg.
Qed.

(** ... and one whose message contains "not found" is taken for a missing
    entry: the corrupt text is overwritten. *)
Lemma typed_write_corrupt_mentions key text value w :
  holds_text w key text → JSON_parse text = None →
  includes "not found"
    ("Failed to get entry from storage: " +:+ fault_message (BadJSON text)) = true →
  storageActions.setItemInStorage key value true w
  = (Return (succeed (JObject value)), write_text key (JSON_stringify (JObject value)) w).
Proof.
  intros [Hk Hne] Hp Hmsg. unfold storageActions.setItemInStorage, try_catch. cbn [negb].
  rewrite (bind_Return _ _ _ _ _ (typed_read_corrupt key text w Hk Hne Hp)).
  cbn [success error data fail negb andb].
  unfold storageActions.mentions_not_found. by rewrite Hmsg.
Qed.
End Typed_write.

Section Typed_update.
Context `{Engine}.

Lemma typed_update_absent key updates w :
  absent w key →
  storageActions.updateStoredPropsForKey key updates w
  = (Return (fail (Some (key +:+ " not found in storage."))), w).
Proof.
  intros Habs. unfold storageActions.updateStoredPropsForKey, try_catch.
  by rewrite (bind_Return _ _ _ _ _ (typed_read_absent key w Habs)).
Qed.

Lemma typed_update_present key text o updates w :
  holds_text w key text → JSON_parse text = Some (JObject o) →
  storageActions.updateStoredPropsForKey key updates w
  = (Return (succeed (JObject (updated o updates))),
     write_text key (JSON_stringify (JObject (updated o updates))) w).
Proof.
  intros [Hk Hne] Hp. unfold storageActions.updateStoredPropsForKey, try_catch.
  rewrite (bind_Return _ _ _ _ _ (typed_read_present key text _ w Hk Hne Hp)).
  cbn [success error data succeed negb andb].
  by rewrite (bind_Return _ _ _ _ _ (filter_js_present (JObject o) updates w ltac:(done))).
Qed.

Lemma updated_keys o updates :
  NoDup o.*1 → (updated o updates).*1 = (obj_assign [] o).*1.
Proof.
  intros Ho. unfold updated. apply obj_assign_keys_present.
  intros k Hk. apply obj_lookup_is_Some. rewrite obj_assign_nil_lookup by done.
  apply list_elem_of_fmap in Hk as [[k' v'] [-> Hin]].
  apply list_elem_of_In, filter_In in Hin as [_ Hown]. simpl in *.
  by apply bool_decide_eq_true_1 in Hown.
Qed.

Lemma updated_lookup o updates k :
  NoDup o.*1 → NoDup updates.*1 →
  obj_lookup k (updated o updates)
  = match obj_lookup k o, obj_lookup k updates with
    | Some _, Some x => Some x
    | old, _ => old
    end.
Proof.
  intros Ho Hu. unfold updated.
  rewrite obj_assign_lookup by by apply filter_keys_NoDup.
  rewrite (obj_lookup_filter (λ k, has_own (JObject o) k)). simpl.
  rewrite obj_assign_nil_lookup by done.
  destruct (obj_lookup k o) as [x|] eqn:Hk.
  - rewrite bool_decide_eq_true_2 by done. by destruct (obj_lookup k updates).
  - by rewrite bool_decide_eq_false_2 by by intros [? ?].
Qed.
(** X1. In the TypeScript module the preserve mode is additive: over an entry
    that is an object, every key of the entry keeps its value and the keys
    of [value] that the entry lacks are added with their values. *)
Lemma typed_preserve_is_additive key text o value w :
  holds_text w key text → JSON_parse text = Some (JObject o) →
  NoDup o.*1 → NoDup value.*1 →
  ∃ merged,
    storageActions.setItemInStorage key value true w
    = (Return (succeed (JObject merged)),
       write_text key (JSON_stringify (JObject merged)) w)
    ∧ (∀ k x, obj_lookup k o = Some x → obj_lookup k merged = Some x)
    ∧ (∀ k, obj_lookup k o = None → obj_lookup k merged = obj_lookup k value).
Proof.
  intros Hheld Hparse Ho Hvalue. exists (preserved o value).
  split; [by eapply typed_write_preserve|].
  split; [intros k x; by apply preserved_existing | intros k; by apply preserved_added].
Qed.

(** X2. In the TypeScript module the update never adds a key: over an entry
    that is an object, the entry written has the keys of the entry, a key
    that [updates] also has takes the value from [updates], and every
    other key keeps its value. *)
Lemma typed_update_never_adds key text o updates w :
  holds_text w key text → JSON_parse text = Some (JObject o) →
  NoDup o.*1 → NoDup updates.*1 →
  ∃ merged,
    storageActions.updateStoredPropsForKey key updates w
    = (Return (succeed (JObject merged)),
       write_text key (JSON_stringify (JObject merged)) w)
    ∧ (∀ k, is_Some (obj_lookup k merged) ↔ is_Some (obj_lookup k o))
    ∧ (∀ k x, obj_lookup k o = Some x →
         obj_lookup k merged = Some (default x (obj_lookup k updates))).
Proof.
  intros Hheld Hparse Ho Hupdates. exists (updated o updates).
  split; [by eapply typed_update_present|].
  split.
  - intros k. rewrite updated_lookup by done.
    destruct (obj_lookup k o), (obj_lookup k updates); split; intros [? ?]; by eexists.
  - intros k x Hk. rewrite updated_lookup, Hk by done. by destruct (obj_lookup k updates).
Qed.

(** X3. In the TypeScript module the preserve mode on a key without entry is
    the plain write. *)
Lemma typed_preserve_without_entry key value w :
  absent w key →
  storageActions.setItemInStorage key value true w
  = storageActions.setItemInStorage key value false w.
Proof. intros Habs. by rewrite typed_write_absent, typed_write_plain. Qed.
End Typed_update.

Section Legacy_read.
Context `{Engine}.

Lemma legacy_read_absent key w :
  absent w key →
  getEntryFromStorage key w
  = (Return JNull, log (not_found key) w).
Proof.
  intros Habs. unfold getEntryFromStorage, bind, try_catch, getItem.
  destruct Habs as [-> | ->]; reflexivity.
Qed.

Lemma legacy_read_present key text v w :
  holds_text w key text → JSON_parse text = Some v →
  getEntryFromStorage key w = (Return v, w).
Proof.
  intros [Hk Hne] Hp. unfold getEntryFromStorage, bind, try_catch, getItem, parse.
  rewrite Hk. simpl. destruct (String.eqb_spec text EmptyString) as [|_]; [done|].
  simpl. by rewrite Hp.
Qed.

Lemma legacy_read_corrupt key text w :
  holds_text w key text → JSON_parse text = None →
  getEntryFromStorage key w
  = (Throw (mkError SyntaxError (fault_message (BadJSON text))), w).
Proof.
  intros [Hk Hne] Hp. unfold getEntryFromStorage, bind, try_catch, getItem, parse.
  rewrite Hk. simpl. destruct (String.eqb_spec text EmptyString) as [|_]; [done|].
  simpl. by rewrite Hp.
Qed.

Lemma absent_or_held w key : absent w key ∨ ∃ text, holds_text w key text.
Proof.
  unfold absent, holds_text. destruct (localStorage w !! key) as [text|]; [|by left; left].
  destruct (decide (text = EmptyString)) as [->|]; [left; by right | right; by eexists].
Qed.

Lemma legacy_write_plain key v w :
  setItemInStorage key v false w = (Return true, write_text key (JSON_stringify v) w).
Proof. reflexivity. Qed.

Lemma holds_text_written key text w :
  text ≠ EmptyString → holds_text (write_text key text w) key text.
Proof. intros Hne. split; [apply lookup_insert_eq | done]. Qed.
End Legacy_read.

Section Legacy_absent.
Context `{Engine}.

Lemma bind_assoc {A B C} (m : JS A) (f : A → JS B) (g : B → JS C) w :
  bind (bind m f) g w = bind m (λ a, bind (f a) g) w.
Proof. unfold bind. by destruct (m w) as [[a|e|] w']. Qed.

Lemma Object_entries_value (v : JSONValue) w :
  v ≠ JNull → Object_entries v w = (Return (own_entries v), w).
Proof. by destruct v. Qed.

(** Without entry, the preserve mode of the JavaScript module returns
    [false] and stores nothing as soon as the value has a property. *)
Lemma legacy_preserve_absent key value k x rest w :
  absent w key → value ≠ JNull → own_entries value = (k, x) :: rest →
  setItemInStorage key value true w
  = (Return false,
     log (mkError TypeError (fault_message (ReadOfNull k))) (log (not_found key) w)).
Proof.
  intros Habs Hvalue Hprops. unfold setItemInStorage, try_catch. cbn [negb].
  rewrite bind_assoc.
  rewrite (bind_Return _ _ _ _ _ (legacy_read_absent key w Habs)). cbn beta.
  rewrite bind_assoc.
  rewrite (bind_Return _ _ _ _ _ (Object_entries_value value _ Hvalue)). cbn beta.
  rewrite Hprops. reflexivity.
Qed.

(** ... and stores the text of [null] when the value has none. *)
Lemma legacy_preserve_absent_empty key value w :
  absent w key → value ≠ JNull → own_entries value = [] →
  setItemInStorage key value true w
  = (Return true, write_text key (JSON_stringify JNull) (log (not_found key) w)).
Proof.
  intros Habs Hvalue Hprops. unfold setItemInStorage, try_catch. cbn [negb].
  rewrite bind_assoc.
  rewrite (bind_Return _ _ _ _ _ (legacy_read_absent key w Habs)). cbn beta.
  rewrite bind_assoc.
  rewrite (bind_Return _ _ _ _ _ (Object_entries_value value _ Hvalue)). cbn beta.
  rewrite Hprops. reflexivity.
Qed.

Lemma legacy_update_absent key updates k x rest w :
  absent w key → updates ≠ JNull → own_entries updates = (k, x) :: rest →
  updateStoredPropsForKey key updates w
  = (Return false,
     log (mkError TypeError (fault_message (ReadOfNull k))) (log (not_found key) w)).
Proof.
  intros Habs Hvalue Hprops. unfold updateStoredPropsForKey, try_catch.
  rewrite (bind_Return _ _ _ _ _ (legacy_read_absent key w Habs)).
  rewrite (bind_Return _ _ _ _ _ (Object_entries_value updates _ Hvalue)).
  rewrite Hprops. reflexivity.
Qed.

Lemma legacy_update_absent_empty key updates w :
  absent w key → updates ≠ JNull → own_entries updates = [] →
  updateStoredPropsForKey key updates w
  = (Return true, write_text key (JSON_stringify JNull) (log (not_found key) w)).
Proof.
  intros Habs Hvalue Hprops. unfold updateStoredPropsForKey, try_catch.
  rewrite (bind_Return _ _ _ _ _ (legacy_read_absent key w Habs)).
  rewrite (bind_Return _ _ _ _ _ (Object_entries_value updates _ Hvalue)).
  rewrite Hprops. reflexivity.
Qed.

(** Without entry, [hasPropertyForKey] of the JavaScript module returns
    [null] for every property. *)
Lemma legacy_has_property_absent key property w :
  absent w key →
  hasPropertyForKey key property w = (Return JNull, log (not_found key) w).
Proof.
  intros Habs. unfold hasPropertyForKey, try_catch.
  by rewrite (bind_Return _ _ _ _ _ (legacy_read_absent key w Habs)).
Qed.
End Legacy_absent.

Section Legacy_present.
Context `{Engine}.

(** Over an object entry, the preserve mode of the JavaScript module
    replaces the value of every key whose stored value is falsy. *)
Lemma legacy_preserve_replaces_falsy key text o k x v w :
  holds_text w key text → JSON_parse text = Some (JObject o) →
  obj_lookup k o = Some x → truthy x = false →
  setItemInStorage key (JObject [(k, v)]) true w
  = (Return true, write_text key (JSON_stringify (JObject (obj_set k v o))) w)
  ∧ obj_lookup k (obj_set k v o) = Some v.
Proof.
  intros Hheld Hparse Hk Hx. split; [|apply obj_lookup_set_eq].
  unfold setItemInStorage, try_catch. cbn [negb]. rewrite bind_assoc.
  rewrite (bind_Return _ _ _ _ _ (legacy_read_present key text _ w Hheld Hparse)). cbn beta.
  unfold bind, Object_entries, for_each, Get, Put. cbn [own_entries fst snd ret].
  rewrite Hk. cbn [read_truthy]. by rewrite Hx.
Qed.

(** Over an object entry, the update of the JavaScript module creates
    every key that the entry lacks and that names an inherited property. *)
Lemma legacy_update_creates_inherited key text o k v w :
  holds_text w key text → JSON_parse text = Some (JObject o) →
  obj_lookup k o = None → Object_prototype_has k = true → k ≠ "__proto__" →
  updateStoredPropsForKey key (JObject [(k, v)]) w
  = (Return true, write_text key (JSON_stringify (JObject (obj_set k v o))) w)
  ∧ obj_lookup k (obj_set k v o) = Some v.
Proof.
  intros Hheld Hparse Hk Hproto Hne. split; [|apply obj_lookup_set_eq].
  unfold updateStoredPropsForKey, try_catch.
  rewrite (bind_Return _ _ _ _ _ (legacy_read_present key text _ w Hheld Hparse)).
  unfold bind, Object_entries, for_each, Get, Put. cbn [own_entries fst snd ret].
  rewrite Hk, Hproto. cbn [read_truthy].
  by destruct (String.eqb_spec k "__proto__").
Qed.
End Legacy_present.

Ltac returns := do 2 eexists; split; [reflexivity | by split].

Section Invariant.
Context `{Engine}.

Lemma typed_write_result key value preserveExisting w :
  ∃ r w', storageActions.setItemInStorage key value preserveExisting w = (Return r, w')
          ∧ well_formed r.
Proof.
  destruct preserveExisting; [|returns].
  unfold storageActions.setItemInStorage, try_catch. cbn [negb].
  destruct (typed_read_cases key w) as (r & Hr & _).
  rewrite (bind_Return _ _ _ _ _ Hr). destruct r as [[] d e]; cbn [success error data negb andb].
  - destruct (filter_js_quiet
                (λ kv : string * JSONValue,
                   let* own := hasOwnProperty d kv.1 in ret (negb own)) value w)
      as (c & Hc & Hnu).
    { intros a. unfold bind. destruct (hasOwnProperty_quiet d a.1 w) as (c & -> & Hc).
      destruct c; [eexists; split; [reflexivity | done]..|done]. }
    unfold bind at 1. rewrite Hc. destruct c; [|returns|done].
    returns.
  - destruct (storageActions.mentions_not_found e); returns.
Qed.

Lemma has_property_quiet property d w :
  ∃ c, has_property property d w = (c, w) ∧ c ≠ Unmodelled.
Proof. destruct d; (eexists; split; [reflexivity | done]). Qed.

Lemma typed_has_result key property w :
  ∃ r w', storageActions.hasPropertyForKey key property w = (Return r, w')
          ∧ well_formed r.
Proof.
  unfold storageActions.hasPropertyForKey, try_catch.
  destruct (typed_read_cases key w) as (r & Hr & _).
  rewrite (bind_Return _ _ _ _ _ Hr). destruct r as [[] d e]; cbn [success error data negb].
  - destruct d as [d|]; [|returns].
    destruct (truthy d); [|returns].
    unfold bind. destruct (has_property_quiet property d w) as (c & -> & Hc).
    destruct c; [returns..|done].
  - returns.
Qed.

Lemma typed_update_result key updates w :
  ∃ r w', storageActions.updateStoredPropsForKey key updates w = (Return r, w')
          ∧ well_formed r.
Proof.
  unfold storageActions.updateStoredPropsForKey, try_catch.
  destruct (typed_read_cases key w) as (r & Hr & _).
  rewrite (bind_Return _ _ _ _ _ Hr). destruct r as [[] d e]; cbn [success error data negb].
  - destruct (filter_js_quiet
                (λ kv : string * JSONValue, hasOwnProperty d kv.1) updates w)
      as (c & Hc & Hnu).
    { intros a. apply hasOwnProperty_quiet. }
    unfold bind at 1. rewrite Hc. destruct c; [|returns|done].
    returns.
  - returns.
Qed.

(** C7. Every operation of the TypeScript module returns, and what it returns
    is a well-formed [StorageResult]: a success carries no error and a
    failure carries no data, whatever the arguments and the world. *)
Theorem results_are_well_formed (key property : string) (value updates : JSONObject)
    (preserveExisting : bool) (w : World) :
  (∃ r w', storageActions.getEntryFromStorage key w = (Return r, w') ∧ well_formed r)
  ∧ (∃ r w', storageActions.setItemInStorage key value preserveExisting w = (Return r, w')
             ∧ well_formed r)
  ∧ (∃ r w', storageActions.hasPropertyForKey key property w = (Return r, w')
             ∧ well_formed r)
  ∧ (∃ r w', storageActions.updateStoredPropsForKey key updates w = (Return r, w')
             ∧ well_formed r).
Proof.
  repeat split.
  - destruct (typed_read_cases key w) as (r & Hr & Hwf & _). by do 2 eexists.
  - apply typed_write_result.
  - apply typed_has_result.
  - apply typed_update_result.
Qed.
End Invariant.

Section Claims.
Context `{Engine}.

(** C9. Reading never writes: the JavaScript read leaves [localStorage] as it
    found it (its only effect is a line on the console), and the
    TypeScript read leaves the whole world as it found it. *)
Theorem read_leaves_store_unchanged (key : string) (w : World) :
  localStorage (getEntryFromStorage key w).2 = localStorage w
  ∧ (storageActions.getEntryFromStorage key w).2 = w.
Proof.
  split.
  - destruct (absent_or_held w key) as [Habs | [text Hheld]].
    + by rewrite legacy_read_absent.
    + destruct (JSON_parse text) eqn:Hp.
      * by erewrite legacy_read_present.
      * by erewrite legacy_read_corrupt.
  - by destruct (typed_read_cases key w) as (r & -> & _).
Qed.

(** C8. Reading a key that has no entry, or an empty one, reports "not
    found": the JavaScript read returns [null], the TypeScript read
    returns a failure whose message says that the key was not found. *)
Theorem read_missing_key (key : string) (w : World) :
  absent w key →
  (getEntryFromStorage key w).1 = Return JNull
  ∧ (storageActions.getEntryFromStorage key w).1
    = Return (mkResult false None (Some (key +:+ " not found in storage.")))
  ∧ includes "not found" (key +:+ " not found in storage.") = true.
Proof.
  intros Habs. rewrite legacy_read_absent, typed_read_absent by done.
  repeat split. by apply includes_app_r.
Qed.

(** C4. Round trip: after a plain write of a value that the JSON codec
    prints and reads back, the read of the same key yields that value, in
    the JavaScript module and in the TypeScript module. *)
Theorem write_then_read (key : string) (v : JSONValue) (w : World) :
  serializable v →
  (∃ w1, setItemInStorage key v false w = (Return true, w1)
         ∧ (getEntryFromStorage key w1).1 = Return v)
  ∧ (∀ value, v = JObject value →
       ∃ w1, storageActions.setItemInStorage key value false w = (Return (succeed v), w1)
             ∧ (storageActions.getEntryFromStorage key w1).1 = Return (succeed v)).
Proof.
  intros [Hne Hrt]. split.
  - eexists. split; [apply legacy_write_plain|].
    erewrite legacy_read_present; [done | by apply holds_text_written | done].
  - intros value ->. eexists. split; [apply typed_write_plain|].
    erewrite typed_read_present; [done | apply lookup_insert_eq | done..].
Qed.
End Claims.

(** * Runs on the reference engine *)

Ltac run := vm_compute; reflexivity.

Section Runs.
#[local] Existing Instance Reference.engine.

Lemma read_missing_key_witness :
  absent Reference.empty_world "missing-key"
  ∧ (getEntryFromStorage "missing-key" Reference.empty_world).1 = Return JNull
  ∧ (storageActions.getEntryFromStorage "missing-key" Reference.empty_world).1
    = Return (mkResult false None (Some ("missing-key" +:+ " not found in storage.")))
  ∧ includes "not found" ("missing-key" +:+ " not found in storage.") = true.
Proof.
  assert (Habs : absent Reference.empty_world "missing-key") by (left; vm_compute; reflexivity).
  split; [exact Habs|].
  exact (read_missing_key "missing-key" Reference.empty_world Habs).
Defined.

Lemma write_then_read_witness :
  serializable ada
  ∧ (∃ w1, setItemInStorage "user" ada false Reference.empty_world = (Return true, w1)
           ∧ (getEntryFromStorage "user" w1).1 = Return ada)
  ∧ (∀ value, ada = JObject value →
       ∃ w1, storageActions.setItemInStorage "user" value false Reference.empty_world
             = (Return (succeed ada), w1)
             ∧ (storageActions.getEntryFromStorage "user" w1).1 = Return (succeed ada)).
Proof.
  assert (Hser : serializable ada).
  { split; [vm_compute; discriminate | vm_compute; reflexivity]. }
  split; [exact Hser|].
  exact (write_then_read "user" ada Reference.empty_world Hser).
Defined.

(** The three examples of section 8 of the specification, run through the
    JavaScript module: additive merge, an existing key kept, and an update
    that drops a new key.  They use truthy values and ordinary names, the
    inputs on which its truthiness tests agree with presence tests. *)
Lemma examples_hold_in_the_javascript_module :
  let a1 := JObject [("a", JNumber 1)] in
  let w0 := Reference.empty_world in
  ∃ w1, setItemInStorage "k" a1 false w0 = (Return true, w1)
  ∧ (∃ w2, setItemInStorage "k" (JObject [("b", JNumber 2)]) true w1 = (Return true, w2)
           ∧ (getEntryFromStorage "k" w2).1
             = Return (JObject [("a", JNumber 1); ("b", JNumber 2)]))
  ∧ (∃ w2, setItemInStorage "k" (JObject [("a", JNumber 99)]) true w1 = (Return true, w2)
           ∧ (getEntryFromStorage "k" w2).1 = Return a1)
  ∧ (∃ w2, updateStoredPropsForKey "k" (JObject [("a", JNumber 99); ("b", JNumber 2)]) w1
           = (Return true, w2)
           ∧ (getEntryFromStorage "k" w2).1 = Return (JObject [("a", JNumber 99)])).
Proof.
  eexists. split; [run|].
  repeat split; eexists; (split; [run|]); run.
Qed.

(** The same examples run through the TypeScript module. *)
Lemma examples_hold_in_the_typescript_module :
  let a1 := JObject [("a", JNumber 1)] in
  let w0 := Reference.empty_world in
  ∃ w1, storageActions.setItemInStorage "k" [("a", JNumber 1)] false w0
        = (Return (succeed a1), w1)
  ∧ (∃ w2, (storageActions.setItemInStorage "k" [("b", JNumber 2)] true w1).2 = w2
           ∧ (storageActions.getEntryFromStorage "k" w2).1
             = Return (succeed (JObject [("a", JNumber 1); ("b", JNumber 2)])))
  ∧ (∃ w2, (storageActions.setItemInStorage "k" [("a", JNumber 99)] true w1).2 = w2
           ∧ (storageActions.getEntryFromStorage "k" w2).1 = Return (succeed a1))
  ∧ (∃ w2, (storageActions.updateStoredPropsForKey "k"
              [("a", JNumber 99); ("b", JNumber 2)] w1).2 = w2
           ∧ (storageActions.getEntryFromStorage "k" w2).1
             = Return (succeed (JObject [("a", JNumber 99)]))).
Proof.
  eexists. split; [run|].
  repeat split; eexists; (split; [run|]); run.
Qed.
(** C1. In the JavaScript module the preserve mode tests [!entry[key]], the
    truthiness of the stored value, where the specification and the documentation
    of the function ask for the presence of the key.  With the entry
    [{darkMode: false}] in store, writing [{darkMode: true}] in preserve
    mode succeeds and the entry read back is [{darkMode: true}]: the
    existing key has lost its value.  On the same input the TypeScript
    module keeps [{darkMode: false}]. *)
Lemma legacy_preserve_overwrites_falsy_value :
  let w := Reference.world_with "settings" (JSON_stringify settings_off) in
  (getEntryFromStorage "settings" w).1 = Return settings_off
  ∧ (∃ w', setItemInStorage "settings" settings_on true w = (Return true, w')
           ∧ (getEntryFromStorage "settings" w').1 = Return settings_on)
  ∧ (∃ w', storageActions.setItemInStorage "settings" [("darkMode", JBool true)] true w
           = (Return (succeed settings_off), w')
           ∧ (getEntryFromStorage "settings" w').1 = Return settings_off).
Proof.
  split; [run|].
  split; eexists; (split; [run|]); run.
Qed.

(** C2. In the JavaScript module the update tests [entry[property]], which
    is truthy for every name a plain object inherits.  With the entry
    [{driver: "Ada"}] in store, the update [{constructor: "Lotus"}]
    succeeds and the entry read back has the new key [constructor], which
    the entry did not own.  On the same input the TypeScript module leaves
    the entry as it was. *)
Lemma legacy_update_adds_inherited_name :
  let w := Reference.world_with "car" (JSON_stringify (JObject [("driver", JString "Ada")])) in
  (getEntryFromStorage "car" w).1 = Return (JObject [("driver", JString "Ada")])
  ∧ (∃ w', updateStoredPropsForKey "car" (JObject [("constructor", JString "Lotus")]) w
           = (Return true, w')
           ∧ (getEntryFromStorage "car" w').1
             = Return (JObject [("driver", JString "Ada"); ("constructor", JString "Lotus")]))
  ∧ (∃ w', storageActions.updateStoredPropsForKey "car" [("constructor", JString "Lotus")] w
           = (Return (succeed (JObject [("driver", JString "Ada")])), w')
           ∧ (getEntryFromStorage "car" w').1 = Return (JObject [("driver", JString "Ada")])).
Proof.
  split; [run|].
  split; eexists; (split; [run|]); run.
Qed.

(** The same test leaves an existing key alone when its stored value is
    falsy: the count stays at 0. *)
Lemma legacy_update_skips_falsy_value :
  let w := Reference.world_with "cart" (JSON_stringify (JObject [("count", JNumber 0)])) in
  ∃ w', updateStoredPropsForKey "cart" (JObject [("count", JNumber 5)]) w = (Return true, w')
        ∧ (getEntryFromStorage "cart" w').1 = Return (JObject [("count", JNumber 0)]).
Proof. eexists. split; [run|]. run. Qed.

(** C3. In the JavaScript module the preserve mode on a key without entry
    reads [null] and then a property of it: the [TypeError] is caught, the
    call returns [false] and nothing is stored, where the plain write of
    the same value returns [true] and stores it. *)
Lemma legacy_preserve_fails_without_entry :
  let w := Reference.empty_world in
  let value := JObject [("a", JNumber 1)] in
  absent w "k"
  ∧ (∃ w', setItemInStorage "k" value true w = (Return false, w')
           ∧ localStorage w' !! "k" = None)
  ∧ (∃ w', setItemInStorage "k" value false w = (Return true, w')
           ∧ localStorage w' !! "k" = Some (JSON_stringify value)).
Proof.
  split; [left; run|].
  split; eexists; (split; [run|]); run.
Qed.

(** With a value that has no property the loop never runs: the call
    returns [true] and stores the text of [null], not of the value. *)
Lemma legacy_preserve_stores_null_without_entry :
  ∃ w', setItemInStorage "k" (JObject []) true Reference.empty_world = (Return true, w')
        ∧ localStorage w' !! "k" = Some "null"
        ∧ JSON_stringify (JObject []) = "{}".
Proof. eexists. split; [run|]. split; run. Qed.

(** C5. In the JavaScript module an update with no property, on a key without
    entry, never touches the [null] it read: the call returns [true] and
    stores the text of [null] under the key. *)
Lemma legacy_update_succeeds_without_entry :
  absent Reference.empty_world "k"
  ∧ ∃ w', updateStoredPropsForKey "k" (JObject []) Reference.empty_world = (Return true, w')
          ∧ localStorage w' !! "k" = Some "null".
Proof.
  split; [left; run|]. eexists. split; [run|]. run.
Qed.

(** C6. In the JavaScript module [hasPropertyForKey] on a key without entry
    returns the value of [entry && ...] with [entry] being [null]: it
    returns [null], which is not the boolean [false]. *)
Lemma legacy_has_property_returns_null :
  absent Reference.empty_world "k"
  ∧ (hasPropertyForKey "k" "x" Reference.empty_world).1 = Return JNull
  ∧ JNull ≠ JBool false.
Proof.
  split; [left; run|]. split; [run | discriminate].
Qed.

(** C10. In the TypeScript module the preserve mode takes any failed read
    whose message contains "not found" for a missing entry.  V8 quotes a
    short text that is not JSON in the message of its [SyntaxError]: with
    the text [user not found] in store, the write in preserve mode returns
    a success and replaces the text. *)
Lemma typed_preserve_overwrites_corrupt_entry :
  let w := Reference.world_with "k" "user not found" in
  let value := [("a", JNumber 1)] in
  holds_text w "k" "user not found"
  ∧ JSON_parse "user not found" = None
  ∧ ∃ w', storageActions.setItemInStorage "k" value true w
          = (Return (succeed (JObject value)), w')
          ∧ localStorage w' !! "k" = Some (JSON_stringify (JObject value)).
Proof.
  split; [split; [run | discriminate]|].
  split; [run|].
  eexists. split; [run|]. run.
Qed.
End Runs.

(** * Further properties *)

Section Frame.
Context `{Engine}.



























End Frame.

Section Atomic.
Context `{Engine}.

Lemma all_or_nothing_written key w d :
  all_or_nothing key w (Return (succeed d), write_text key (JSON_stringify d) w).
Proof. exists (succeed d). split; [done|]. by exists d. Qed.

Lemma all_or_nothing_failed key w e : all_or_nothing key w (Return (fail e), w).
Proof. by exists (fail e). Qed.

(** X6. A write of the TypeScript module is all or nothing: it always
    returns, and either it reports a failure and leaves the world as it
    was, or it reports a success with data and the store holds the text of
    exactly that data under the key.  The same holds of an update. *)
Theorem typed_writes_are_all_or_nothing (key : string) (value updates : JSONObject)
    (preserveExisting : bool) (w : World) :
  all_or_nothing key w (storageActions.setItemInStorage key value preserveExisting w)
  ∧ all_or_nothing key w (storageActions.updateStoredPropsForKey key updates w).
Proof.
  split.
  - destruct preserveExisting; [|apply all_or_nothing_written].
    unfold storageActions.setItemInStorage, try_catch. cbn [negb].
    destruct (typed_read_cases key w) as (r & Hr & _).
    rewrite (bind_Return _ _ _ _ _ Hr).
    destruct r as [[] d e]; cbn [success error data negb andb].
    + destruct (filter_js_quiet
                  (λ kv : string * JSONValue,
                     let* own := hasOwnProperty d kv.1 in ret (negb own)) value w)
        as (c & Hc & Hnu).
      { intros a. unfold bind. destruct (hasOwnProperty_quiet d a.1 w) as (c & -> & Hc).
        destruct c; [eexists; split; [reflexivity | done]..|done]. }
      unfold bind at 1. rewrite Hc.
      destruct c; [apply all_or_nothing_written | apply all_or_nothing_failed | done].
    + destruct (storageActions.mentions_not_found e);
        [apply all_or_nothing_written | apply all_or_nothing_failed].
  - unfold storageActions.updateStoredPropsForKey, try_catch.
    destruct (typed_read_cases key w) as (r & Hr & _).
    rewrite (bind_Return _ _ _ _ _ Hr).
    destruct r as [[] d e]; cbn [success error data negb]; [|apply all_or_nothing_failed].
    destruct (filter_js_quiet
                (λ kv : string * JSONValue, hasOwnProperty d kv.1) updates w)
      as (c & Hc & Hnu); [intros a; apply hasOwnProperty_quiet|].
    unfold bind at 1. rewrite Hc.
    destruct c; [apply all_or_nothing_written | apply all_or_nothing_failed | done].
Qed.
End Atomic.

Section Reads_and_checks.
Context `{Engine}.

Lemma log_changes_world e w : log e w ≠ w.
Proof.
  intros Heq. apply (f_equal console) in Heq. simpl in Heq.
  apply (f_equal length) in Heq. rewrite length_app in Heq. simpl in Heq. lia.
Qed.

(** X7. The two reads agree on what is stored: the TypeScript read succeeds
    with a value exactly when the JavaScript read returns that value without
    logging anything. *)
Theorem reads_agree (key : string) (v : JSONValue) (w : World) :
  storageActions.getEntryFromStorage key w = (Return (succeed v), w)
  ↔ getEntryFromStorage key w = (Return v, w).
Proof.
  destruct (absent_or_held w key) as [Habs | [text [Hk Hne]]].
  - rewrite typed_read_absent, legacy_read_absent by done.
    split; [done|]. intros [= _ Hw]. by apply log_changes_world in Hw.
  - destruct (JSON_parse text) as [v'|] eqn:Hp.
    + rewrite (typed_read_present key text v' w), (legacy_read_present key text v' w) by done.
      split; by intros [= ->].
    + rewrite (typed_read_corrupt key text w), (legacy_read_corrupt key text w) by done.
      split; done.
Qed.

(** X8. Only the read of the JavaScript module can throw.  On an entry whose
    text is not JSON it throws the [SyntaxError] of [JSON.parse], since
    the parse sits outside its [try] block; the three other functions
    catch that error, log it, leave the store as it was and return
    [false]. *)
Theorem legacy_corrupt_entry (key text property : string) (value updates : JSONValue)
    (w : World) :
  holds_text w key text → JSON_parse text = None →
  let err := mkError SyntaxError (fault_message (BadJSON text)) in
  getEntryFromStorage key w = (Throw err, w)
  ∧ setItemInStorage key value true w = (Return false, log err w)
  ∧ updateStoredPropsForKey key updates w = (Return false, log err w)
  ∧ hasPropertyForKey key property w = (Return (JBool false), log err w).
Proof.
  intros Hheld Hparse err.
  pose proof (legacy_read_corrupt key text w Hheld Hparse) as Hread.
  split; [done|].
  unfold setItemInStorage, updateStoredPropsForKey, hasPropertyForKey, try_catch.
  cbn [negb]. unfold bind. by rewrite Hread.
Qed.



(** X10. On an entry that is an object both modules answer the check alike:
    the property is reported present when the object owns it or inherits
    it from [Object.prototype], whatever its value, and nothing is written
    or logged. *)
Theorem has_property_of_object (key text property : string) (o : JSONObject) (w : World) :
  holds_text w key text → JSON_parse text = Some (JObject o) →
  let found := bool_decide (is_Some (obj_lookup property o))
               || Object_prototype_has property in
  hasPropertyForKey key property w = (Return (JBool found), w)
  ∧ storageActions.hasPropertyForKey key property w = (Return (succeed (JBool found)), w).
Proof.
  intros Hheld Hparse found. split.
  - unfold hasPropertyForKey, try_catch.
    rewrite (bind_Return _ _ _ _ _ (legacy_read_present key text _ w Hheld Hparse)).
    cbn [truthy]. unfold bind, Get, found. cbn [ret].
    by destruct (obj_lookup property o), (Object_prototype_has property).
  - destruct Hheld as [Hk Hne]. unfold storageActions.hasPropertyForKey, try_catch.
    rewrite (bind_Return _ _ _ _ _ (typed_read_present key text _ w Hk Hne Hparse)).
    reflexivity.
Qed.

(** X11. On an entry that is a primitive the check does not answer with a
    boolean.  A falsy entry ([null], [false], [0], the empty string) is
    handed back as it is, by both modules; on a truthy one the TypeScript
    module fails with the [TypeError] of the [in] operator. *)
Theorem has_property_of_primitive (key text property : string) (d : JSONValue)
    (w : World) :
  holds_text w key text → JSON_parse text = Some d →
  match d with JArray _ | JObject _ => False | _ => True end →
  if truthy d then
    storageActions.hasPropertyForKey key property w
    = (Return (fail (Some ("Failed to check property: "
                           +:+ fault_message (InOperand property d)))), w)
  else
    hasPropertyForKey key property w = (Return d, w)
    ∧ storageActions.hasPropertyForKey key property w = (Return (succeed d), w).
Proof.
  intros Hheld Hparse Hprim. pose proof Hheld as [Hk Hne].
  unfold hasPropertyForKey, storageActions.hasPropertyForKey, try_catch.
  rewrite (bind_Return _ _ _ _ _ (legacy_read_present key text _ w Hheld Hparse)).
  rewrite (bind_Return _ _ _ _ _ (typed_read_present key text _ w Hk Hne Hparse)).
  cbn [success data succeed negb].
  destruct (truthy d) eqn:Ht; [|done].
  by destruct d.
Qed.
End Reads_and_checks.

Section Legacy_loops.
Context `{Engine}.

Lemma inherited_proto : Object_prototype_has "__proto__" = true.
Proof. reflexivity. Qed.

Lemma obj_lookup_head k v (ps : JSONObject) k' :
  obj_lookup k' ((k, v) :: ps) = if String.eqb k k' then Some v else obj_lookup k' ps.
Proof. reflexivity. Qed.

Lemma Get_object (o : JSONObject) k w :
  Get (JObject o) k w
  = (Return match obj_lookup k o with
            | Some v => Own v
            | None => if Object_prototype_has k then Inherited else Undefined
            end, w).
Proof. reflexivity. Qed.

Lemma preserve_loop (props o : JSONObject) (w : World) :
  NoDup props.*1 →
  (∀ k x, obj_lookup k o = Some x → k ∈ props.*1 → truthy x = true) →
  (∀ k, k ∈ props.*1 → obj_lookup k o = None → Object_prototype_has k = false) →
  ∃ merged,
    for_each (λ entry kv,
                let* current := Get entry kv.1 in
                if negb (read_truthy current) then Put entry kv.1 kv.2 else ret entry)
      props (JObject o) w
    = (Return (JObject merged), w)
    ∧ ∀ k, obj_lookup k merged
           = match obj_lookup k o with Some x => Some x | None => obj_lookup k props end.
Proof.
  revert o. induction props as [|[k1 v1] ps IH]; intros o Hnd Htruthy Hplain.
  { exists o. split; [done|]. intros k. by destruct (obj_lookup k o). }
  apply NoDup_cons in Hnd as [Hfresh Hnd]. cbn [fmap list_fmap fst] in *.
  cbn [for_each fst snd]. rewrite bind_assoc.
  rewrite (bind_Return _ _ _ _ _ (Get_object o k1 w)).
  destruct (obj_lookup k1 o) as [x|] eqn:Hk1.
  - cbn [read_truthy]. rewrite (Htruthy k1 x Hk1) by left. cbn [negb].
    rewrite (bind_Return _ _ w (JObject o) w eq_refl).
    destruct (IH o Hnd) as (merged & -> & Hm).
    { intros k y Hk Hin. apply (Htruthy k y Hk). by right. }
    { intros k Hin Hk. apply Hplain; [by right | done]. }
    exists merged. split; [done|]. intros k. rewrite Hm, obj_lookup_head.
    destruct (String.eqb_spec k1 k) as [<-|]; [by rewrite Hk1 | done].
  - rewrite (Hplain k1) by (done || left). cbn [read_truthy negb].
    assert (HPut : Put (JObject o) k1 v1 w = (Return (JObject (obj_set k1 v1 o)), w)).
    { unfold Put. rewrite Hk1. destruct (String.eqb_spec k1 "__proto__") as [->|_]; [|done].
      specialize (Hplain "__proto__"). rewrite inherited_proto in Hplain.
      discriminate Hplain; [left | done]. }
    rewrite (bind_Return _ _ _ _ _ HPut).
    destruct (IH (obj_set k1 v1 o) Hnd) as (merged & -> & Hm).
    { intros k y Hk Hin. apply (Htruthy k y); [|by right].
      rewrite obj_lookup_set_ne in Hk; [done|]. by intros ->. }
    { intros k Hin Hk. apply Hplain; [by right|].
      rewrite obj_lookup_set_ne in Hk; [done|]. by intros ->. }
    exists merged. split; [done|]. intros k. rewrite Hm, obj_lookup_set, obj_lookup_head.
    destruct (String.eqb_spec k1 k) as [<-|]; [by rewrite Hk1 | done].
Qed.

Lemma update_loop (props o : JSONObject) (w : World) :
  NoDup props.*1 →
  (∀ k x, obj_lookup k o = Some x → k ∈ props.*1 → truthy x = true) →
  (∀ k, k ∈ props.*1 → obj_lookup k o = None → Object_prototype_has k = false) →
  ∃ merged,
    for_each (λ entry kv,
                let* current := Get entry kv.1 in
                if read_truthy current then Put entry kv.1 kv.2 else ret entry)
      props (JObject o) w
    = (Return (JObject merged), w)
    ∧ ∀ k, obj_lookup k merged
           = match obj_lookup k o, obj_lookup k props with
             | Some _, Some x => Some x
             | old, _ => old
             end.
Proof.
  revert o. induction props as [|[k1 v1] ps IH]; intros o Hnd Htruthy Hplain.
  { exists o. split; [done|]. intros k. by destruct (obj_lookup k o). }
  apply NoDup_cons in Hnd as [Hfresh Hnd]. cbn [fmap list_fmap fst] in *.
  cbn [for_each fst snd]. rewrite bind_assoc.
  rewrite (bind_Return _ _ _ _ _ (Get_object o k1 w)).
  assert (Hps : obj_lookup k1 ps = None) by by apply obj_lookup_None.
  destruct (obj_lookup k1 o) as [x|] eqn:Hk1.
  - cbn [read_truthy]. rewrite (Htruthy k1 x Hk1) by left.
    assert (HPut : Put (JObject o) k1 v1 w = (Return (JObject (obj_set k1 v1 o)), w)).
    { unfold Put. by rewrite Hk1. }
    rewrite (bind_Return _ _ _ _ _ HPut).
    destruct (IH (obj_set k1 v1 o) Hnd) as (merged & -> & Hm).
    { intros k y Hk Hin. apply (Htruthy k y); [|by right].
      rewrite obj_lookup_set_ne in Hk; [done|]. by intros ->. }
    { intros k Hin Hk. apply Hplain; [by right|].
      rewrite obj_lookup_set_ne in Hk; [done|]. by intros ->. }
    exists merged. split; [done|]. intros k. rewrite Hm, obj_lookup_set, obj_lookup_head.
    destruct (String.eqb_spec k1 k) as [<-|]; [by rewrite Hk1, Hps | done].
  - rewrite (Hplain k1) by (done || left). cbn [read_truthy].
    rewrite (bind_Return _ _ w (JObject o) w eq_refl).
    destruct (IH o Hnd) as (merged & -> & Hm).
    { intros k y Hk Hin. apply (Htruthy k y Hk). by right. }
    { intros k Hin Hk. apply Hplain; [by right | done]. }
    exists merged. split; [done|]. intros k. rewrite Hm, obj_lookup_head.
    destruct (String.eqb_spec k1 k) as [<-|]; [by rewrite Hk1 | done].
Qed.

(** X12. The preserve mode of the JavaScript module is additive on the inputs
    where its truthiness test coincides with a presence test: over an
    entry that is an object, when the stored values of the keys that
    [value] also has are truthy and the keys that the entry lacks are not
    names of [Object.prototype], the call returns [true], every key of the
    entry keeps its value and the other keys of [value] are added. *)
Theorem legacy_preserve_is_additive (key text : string) (o props : JSONObject)
    (w : World) :
  holds_text w key text → JSON_parse text = Some (JObject o) →
  NoDup props.*1 →
  (∀ k x, obj_lookup k o = Some x → k ∈ props.*1 → truthy x = true) →
  (∀ k, k ∈ props.*1 → obj_lookup k o = None → Object_prototype_has k = false) →
  ∃ merged,
    setItemInStorage key (JObject props) true w
    = (Return true, write_text key (JSON_stringify (JObject merged)) w)
    ∧ ∀ k, obj_lookup k merged
           = match obj_lookup k o with Some x => Some x | None => obj_lookup k props end.
Proof.
  intros Hheld Hparse Hnd Htruthy Hplain.
  destruct (preserve_loop props o w Hnd Htruthy Hplain) as (merged & Hloop & Hm).
  exists merged. split; [|done].
  unfold setItemInStorage, try_catch. cbn [negb]. rewrite bind_assoc.
  rewrite (bind_Return _ _ _ _ _ (legacy_read_present key text _ w Hheld Hparse)). cbn beta.
  rewrite bind_assoc. unfold bind at 1. cbn [Object_entries own_entries ret].
  rewrite bind_assoc. by rewrite (bind_Return _ _ _ _ _ Hloop).
Qed.

(** X13. Under the same conditions the update of the JavaScript module changes
    existing keys only: the call returns [true], the entry written has a
    key exactly when the entry had it, a key that the updates also have
    takes their value and every other key keeps its own. *)
Theorem legacy_update_changes_existing_only (key text : string) (o props : JSONObject)
    (w : World) :
  holds_text w key text → JSON_parse text = Some (JObject o) →
  NoDup props.*1 →
  (∀ k x, obj_lookup k o = Some x → k ∈ props.*1 → truthy x = true) →
  (∀ k, k ∈ props.*1 → obj_lookup k o = None → Object_prototype_has k = false) →
  ∃ merged,
    updateStoredPropsForKey key (JObject props) w
    = (Return true, write_text key (JSON_stringify (JObject merged)) w)
    ∧ ∀ k, obj_lookup k merged
           = match obj_lookup k o, obj_lookup k props with
             | Some _, Some x => Some x
             | old, _ => old
             end.
Proof.
  intros Hheld Hparse Hnd Htruthy Hplain.
  destruct (update_loop props o w Hnd Htruthy Hplain) as (merged & Hloop & Hm).
  exists merged. split; [|done].
  unfold updateStoredPropsForKey, try_catch.
  rewrite (bind_Return _ _ _ _ _ (legacy_read_present key text _ w Hheld Hparse)).
  unfold bind at 1. cbn [Object_entries own_entries ret].
  by rewrite (bind_Return _ _ _ _ _ Hloop).
Qed.
End Legacy_loops.

Section Typed_more.
Context `{Engine}.

(** X14. A failed read is handed on unchanged by the update and by the check
    of the TypeScript module: whatever made the read fail, a missing
    entry as well as a text that is not JSON, they return the failure of
    the read with its message and write nothing. *)
Theorem typed_read_failure_is_propagated (key property : string) (updates : JSONObject)
    (r : StorageResult) (w : World) :
  storageActions.getEntryFromStorage key w = (Return r, w) → success r = false →
  storageActions.updateStoredPropsForKey key updates w = (Return (fail (error r)), w)
  ∧ storageActions.hasPropertyForKey key property w = (Return (fail (error r)), w).
Proof.
  intros Hread Hfail.
  unfold storageActions.updateStoredPropsForKey, storageActions.hasPropertyForKey, try_catch.
  rewrite !(bind_Return _ _ _ _ _ Hread). by rewrite Hfail.
Qed.

(** X15. The merges of the TypeScript module round-trip through the store:
    after a plain write of [value], a write of [extra] in preserve mode
    followed by a read yields [value] with the new keys of [extra] added,
    and an update by [extra] followed by a read yields [value] with its
    own keys updated, provided the engine prints and reads back the
    objects involved. *)
Theorem typed_merges_read_back (key : string) (value extra : JSONObject) (w : World) :
  NoDup value.*1 → NoDup extra.*1 →
  serializable (JObject value) →
  serializable (JObject (preserved value extra)) →
  serializable (JObject (updated value extra)) →
  let w1 := (storageActions.setItemInStorage key value false w).2 in
  (storageActions.getEntryFromStorage key
     (storageActions.setItemInStorage key extra true w1).2).1
  = Return (succeed (JObject (preserved value extra)))
  ∧ (storageActions.getEntryFromStorage key
       (storageActions.updateStoredPropsForKey key extra w1).2).1
    = Return (succeed (JObject (updated value extra)))
  ∧ (∀ k, obj_lookup k (preserved value extra)
          = match obj_lookup k value with
            | Some x => Some x
            | None => obj_lookup k extra
            end)
  ∧ (∀ k, obj_lookup k (updated value extra)
          = match obj_lookup k value, obj_lookup k extra with
            | Some _, Some x => Some x
            | old, _ => old
            end).
Proof.
  intros Hvalue Hextra [Hv1 Hv2] [Hp1 Hp2] [Hu1 Hu2] w1.
  assert (Hheld : holds_text w1 key (JSON_stringify (JObject value))).
  { unfold w1. rewrite typed_write_plain. by apply holds_text_written. }
  split; [|split; [|split]].
  - rewrite (typed_write_preserve key _ value extra w1 Hheld Hv2). cbn [snd].
    erewrite typed_read_present; [done | apply lookup_insert_eq | done..].
  - rewrite (typed_update_present key _ value extra w1 Hheld Hv2). cbn [snd].
    erewrite typed_read_present; [done | apply lookup_insert_eq | done..].
  - intros k. destruct (obj_lookup k value) as [x|] eqn:Hk.
    + by apply preserved_existing.
    + by apply preserved_added.
  - intros k. by apply updated_lookup.
Qed.
End Typed_more.

Section Edges.
Context `{Engine}.

(** X16. A stored [null] is neither a missing entry nor an object to merge
    into.  Over the entry [null] the TypeScript module fails to write a
    non-empty value in preserve mode and fails to apply a non-empty
    update, with the [TypeError] of [hasOwnProperty] in its message, and
    writes nothing; an empty value in preserve mode replaces the [null]
    by the empty object. *)
Theorem typed_merge_over_null (key text : string) (kv : string * JSONValue)
    (rest : JSONObject) (w : World) :
  holds_text w key text → JSON_parse text = Some JNull →
  storageActions.setItemInStorage key (kv :: rest) true w
  = (Return (fail (Some ("Failed to set item in storage: "
                         +:+ fault_message NullToObject))), w)
  ∧ storageActions.updateStoredPropsForKey key (kv :: rest) w
    = (Return (fail (Some ("Failed to update properties: "
                           +:+ fault_message NullToObject))), w)
  ∧ storageActions.setItemInStorage key [] true w
    = (Return (succeed (JObject [])), write_text key (JSON_stringify (JObject [])) w).
Proof.
  intros [Hk Hne] Hparse.
  pose proof (typed_read_present key text JNull w Hk Hne Hparse) as Hread.
  unfold storageActions.setItemInStorage, storageActions.updateStoredPropsForKey, try_catch.
  cbn [negb]. rewrite !(bind_Return _ _ _ _ _ Hread).
  cbn [success error data succeed negb andb]. done.
Qed.

(** X17. The two modules share one storage format: what a plain write of one
    module stores, the read of the other module yields, for every value
    that the engine prints and reads back. *)
Theorem modules_interoperate (key : string) (value : JSONObject) (w : World) :
  serializable (JObject value) →
  (storageActions.getEntryFromStorage key
     (setItemInStorage key (JObject value) false w).2).1
  = Return (succeed (JObject value))
  ∧ (getEntryFromStorage key
       (storageActions.setItemInStorage key value false w).2).1
    = Return (JObject value).
Proof.
  intros [Hne Hrt]. rewrite legacy_write_plain, typed_write_plain. cbn [snd]. split.
  - erewrite typed_read_present; [done | apply lookup_insert_eq | done..].
  - erewrite legacy_read_present; [done | by apply holds_text_written | done].
Qed.

(** X18. With [null] for the value, the preserve mode of the JavaScript
    module returns [false] and stores nothing whenever the read of the
    entry does not throw, although the plain write of [null] succeeds:
    [Object.keys(null)] throws a [TypeError], which is caught and logged.
    The update with [null] for the updates does the same. *)
Theorem legacy_null_argument (key : string) (entry : JSONValue) (w w1 : World) :
  getEntryFromStorage key w = (Return entry, w1) →
  let err := mkError TypeError (fault_message NullToObject) in
  setItemInStorage key JNull true w = (Return false, log err w1)
  ∧ updateStoredPropsForKey key JNull w = (Return false, log err w1)
  ∧ setItemInStorage key JNull false w
    = (Return true, write_text key (JSON_stringify JNull) w).
Proof.
  intros Hread err.
  unfold setItemInStorage, updateStoredPropsForKey, try_catch. cbn [negb].
  rewrite bind_assoc. rewrite !(bind_Return _ _ _ _ _ Hread). done.
Qed.
End Edges.

Section Corrupt.
Context `{Engine}.

(** X19. Over an entry whose text is not JSON, the preserve mode of the
    TypeScript module decides by the message of the failed read: when
    the message contains the words [not found] the text is replaced by
    the value and the call succeeds, otherwise the call returns the
    failure of the read and writes nothing. *)
Theorem typed_preserve_over_corrupt_entry (key text : string) (value : JSONObject)
    (w : World) :
  holds_text w key text → JSON_parse text = None →
  let message := "Failed to get entry from storage: " +:+ fault_message (BadJSON text) in
  storageActions.setItemInStorage key value true w
  = if includes "not found" message
    then (Return (succeed (JObject value)),
          write_text key (JSON_stringify (JObject value)) w)
    else (Return (fail (Some message)), w).
Proof.
  intros Hheld Hparse message.
  destruct (includes "not found" message) eqn:Hm.
  - by apply (typed_write_corrupt_mentions key text).
  - by apply (typed_write_corrupt key text).
Qed.
End Corrupt.

Section Idempotence.
Context `{Engine}.

Lemma obj_insert_index_keys i k v o : (obj_insert_index i k v o).*1 ≡ₚ k :: o.*1.
Proof.
  induction o as [|[k' v'] o IH]; simpl; [done|].
  destruct (array_index k') as [j|]; [|done].
  destruct (j <? i)%N; [|done]. simpl. rewrite IH. apply Permutation_swap.
Qed.

Lemma obj_set_NoDup k v o : NoDup o.*1 → NoDup (obj_set k v o).*1.
Proof.
  intros Hnd. unfold obj_set. destruct (obj_lookup k o) eqn:Hk.
  - by rewrite obj_replace_keys.
  - apply obj_lookup_None in Hk. destruct (array_index k).
    + rewrite obj_insert_index_keys. by apply NoDup_cons.
    + rewrite fmap_app. simpl. apply NoDup_app. split; [done|]. split.
      * intros x Hx ->%list_elem_of_singleton. done.
      * apply NoDup_singleton.
Qed.

Lemma obj_assign_NoDup t s : NoDup t.*1 → NoDup (obj_assign t s).*1.
Proof.
  unfold obj_assign. revert t. induction s as [|[k v] s IH]; intros t Hnd; simpl; [done|].
  apply IH. by apply obj_set_NoDup.
Qed.

Lemma preserved_NoDup o value : NoDup (preserved o value).*1.
Proof. unfold preserved. apply obj_assign_NoDup, obj_assign_NoDup, NoDup_nil_2. Qed.

Lemma updated_NoDup o updates : NoDup (updated o updates).*1.
Proof. unfold updated. apply obj_assign_NoDup, obj_assign_NoDup, NoDup_nil_2. Qed.

(** X20. The merges of the TypeScript module are idempotent: over an entry
    that is an object, writing the same value in preserve mode a second
    time succeeds again and yields an entry with the same keys and values
    as the first time, and so does applying the same update a second
    time, provided the engine prints and reads back the entries
    written. *)
Theorem typed_merges_are_idempotent (key text : string) (o extra : JSONObject)
    (w : World) :
  holds_text w key text → JSON_parse text = Some (JObject o) →
  NoDup o.*1 → NoDup extra.*1 →
  serializable (JObject (preserved o extra)) →
  serializable (JObject (updated o extra)) →
  (∃ again,
     let w1 := (storageActions.setItemInStorage key extra true w).2 in
     storageActions.setItemInStorage key extra true w1
     = (Return (succeed (JObject again)),
        write_text key (JSON_stringify (JObject again)) w1)
     ∧ ∀ k, obj_lookup k again = obj_lookup k (preserved o extra))
  ∧ (∃ again,
       let w1 := (storageActions.updateStoredPropsForKey key extra w).2 in
       storageActions.updateStoredPropsForKey key extra w1
       = (Return (succeed (JObject again)),
          write_text key (JSON_stringify (JObject again)) w1)
       ∧ ∀ k, obj_lookup k again = obj_lookup k (updated o extra)).
Proof.
  intros Hheld Hparse Ho Hextra [Hp1 Hp2] [Hu1 Hu2]. split.
  - exists (preserved (preserved o extra) extra). intros w1.
    assert (Hheld1 : holds_text w1 key (JSON_stringify (JObject (preserved o extra)))).
    { unfold w1. rewrite (typed_write_preserve key text o extra w Hheld Hparse).
      by apply holds_text_written. }
    split; [by apply (typed_write_preserve key _ _ extra w1 Hheld1)|].
    intros k. pose proof (preserved_NoDup o extra) as Hnd.
    destruct (obj_lookup k (preserved o extra)) as [x|] eqn:Hk.
    + by apply preserved_existing.
    + rewrite preserved_added by done.
      destruct (obj_lookup k o) as [y|] eqn:Hko.
      * by rewrite (preserved_existing o extra k y) in Hk.
      * by rewrite preserved_added in Hk.
  - exists (updated (updated o extra) extra). intros w1.
    assert (Hheld1 : holds_text w1 key (JSON_stringify (JObject (updated o extra)))).
    { unfold w1. rewrite (typed_update_present key text o extra w Hheld Hparse).
      by apply holds_text_written. }
    split; [by apply (typed_update_present key _ _ extra w1 Hheld1)|].
    intros k. pose proof (updated_NoDup o extra) as Hnd.
    rewrite !updated_lookup by done.
    by destruct (obj_lookup k o), (obj_lookup k extra).
Qed.
End Idempotence.

Ltac distinct := apply (bool_decide_unpack _); vm_compute; exact I.

Section Further_runs.
#[local] Existing Instance Reference.engine.

Lemma holds_holding (v : JSONValue) : holds_text (holding v) "k" (JSON_stringify v).
Proof. split; [apply lookup_singleton_eq | apply stringify_nonempty]. Qed.

Lemma typed_preserve_is_additive_witness :
  ∃ merged,
    storageActions.setItemInStorage "k" a99_b2 true (holding (JObject a1))
    = (Return (succeed (JObject merged)),
       write_text "k" (JSON_stringify (JObject merged)) (holding (JObject a1)))
    ∧ (∀ k x, obj_lookup k a1 = Some x → obj_lookup k merged = Some x)
    ∧ (∀ k, obj_lookup k a1 = None → obj_lookup k merged = obj_lookup k a99_b2).
Proof.
  apply (typed_preserve_is_additive "k" (JSON_stringify (JObject a1)) a1 a99_b2).
  - apply holds_holding.
  - run.
  - distinct.
  - distinct.
Defined.

Lemma typed_update_never_adds_witness :
  ∃ merged,
    storageActions.updateStoredPropsForKey "k" a99_b2 (holding (JObject a1))
    = (Return (succeed (JObject merged)),
       write_text "k" (JSON_stringify (JObject merged)) (holding (JObject a1)))
    ∧ (∀ k, is_Some (obj_lookup k merged) ↔ is_Some (obj_lookup k a1))
    ∧ (∀ k x, obj_lookup k a1 = Some x →
         obj_lookup k merged = Some (default x (obj_lookup k a99_b2))).
Proof.
  apply (typed_update_never_adds "k" (JSON_stringify (JObject a1)) a1 a99_b2).
  - apply holds_holding.
  - run.
  - distinct.
  - distinct.
Defined.

Lemma typed_preserve_without_entry_witness :
  storageActions.setItemInStorage "k" a1 true Reference.empty_world
  = storageActions.setItemInStorage "k" a1 false Reference.empty_world.
Proof.
  apply (typed_preserve_without_entry "k" a1 Reference.empty_world).
  left. run.
Defined.


Lemma legacy_corrupt_entry_witness :
  getEntryFromStorage "k" (Reference.world_with "k" "oops")
  = (Throw (mkError SyntaxError (fault_message (BadJSON "oops"))),
     Reference.world_with "k" "oops").
Proof.
  apply (legacy_corrupt_entry "k" "oops" "a" (JObject a1) (JObject a1)
           (Reference.world_with "k" "oops")).
  - split; [run | discriminate].
  - run.
Defined.

Lemma has_property_of_object_witness :
  hasPropertyForKey "k" "a" (holding (JObject a1))
  = (Return (JBool (bool_decide (is_Some (obj_lookup "a" a1))
                    || Object_prototype_has "a")), holding (JObject a1))
  ∧ storageActions.hasPropertyForKey "k" "a" (holding (JObject a1))
    = (Return (succeed (JBool (bool_decide (is_Some (obj_lookup "a" a1))
                               || Object_prototype_has "a"))), holding (JObject a1)).
Proof.
  apply (has_property_of_object "k" (JSON_stringify (JObject a1)) "a" a1).
  - apply holds_holding.
  - run.
Defined.

Lemma has_property_of_primitive_witness :
  hasPropertyForKey "k" "a" (holding (JNumber 0)) = (Return (JNumber 0), holding (JNumber 0))
  ∧ storageActions.hasPropertyForKey "k" "a" (holding (JNumber 0))
    = (Return (succeed (JNumber 0)), holding (JNumber 0)).
Proof.
  apply (has_property_of_primitive "k" (JSON_stringify (JNumber 0)) "a" (JNumber 0)).
  - apply holds_holding.
  - run.
  - exact I.
Defined.

Lemma legacy_preserve_is_additive_witness :
  ∃ merged,
    setItemInStorage "k" (JObject a99_b2) true (holding (JObject a1))
    = (Return true, write_text "k" (JSON_stringify (JObject merged)) (holding (JObject a1)))
    ∧ ∀ k, obj_lookup k merged
           = match obj_lookup k a1 with Some x => Some x | None => obj_lookup k a99_b2 end.
Proof.
  apply (legacy_preserve_is_additive "k" (JSON_stringify (JObject a1)) a1 a99_b2).
  - apply holds_holding.
  - run.
  - distinct.
  - intros k x Hk _.
    change (obj_lookup k a1) with (if String.eqb "a" k then Some (JNumber 1) else None) in Hk.
    destruct (String.eqb "a" k); [|discriminate]. by injection Hk as <-.
  - intros k Hk _. apply list_elem_of_In in Hk. cbn in Hk.
    destruct Hk as [<- | [<- | []]]; reflexivity.
Defined.

Lemma legacy_update_changes_existing_only_witness :
  ∃ merged,
    updateStoredPropsForKey "k" (JObject a99_b2) (holding (JObject a1))
    = (Return true, write_text "k" (JSON_stringify (JObject merged)) (holding (JObject a1)))
    ∧ ∀ k, obj_lookup k merged
           = match obj_lookup k a1, obj_lookup k a99_b2 with
             | Some _, Some x => Some x
             | old, _ => old
             end.
Proof.
  apply (legacy_update_changes_existing_only "k" (JSON_stringify (JObject a1)) a1 a99_b2).
  - apply holds_holding.
  - run.
  - distinct.
  - intros k x Hk _.
    change (obj_lookup k a1) with (if String.eqb "a" k then Some (JNumber 1) else None) in Hk.
    destruct (String.eqb "a" k); [|discriminate]. by injection Hk as <-.
  - intros k Hk _. apply list_elem_of_In in Hk. cbn in Hk.
    destruct Hk as [<- | [<- | []]]; reflexivity.
Defined.

Lemma typed_read_failure_is_propagated_witness :
  storageActions.updateStoredPropsForKey "k" a1 Reference.empty_world
  = (Return (fail (Some ("k" +:+ " not found in storage."))), Reference.empty_world)
  ∧ storageActions.hasPropertyForKey "k" "a" Reference.empty_world
    = (Return (fail (Some ("k" +:+ " not found in storage."))), Reference.empty_world).
Proof.
  apply (typed_read_failure_is_propagated "k" "a" a1
           (fail (Some ("k" +:+ " not found in storage."))) Reference.empty_world).
  - apply typed_read_absent. left. run.
  - reflexivity.
Defined.

Lemma typed_merges_read_back_witness :
  (storageActions.getEntryFromStorage "k"
     (storageActions.setItemInStorage "k" a99_b2 true
        (storageActions.setItemInStorage "k" a1 false Reference.empty_world).2).2).1
  = Return (succeed (JObject (preserved a1 a99_b2))).
Proof.
  refine (proj1 (typed_merges_read_back "k" a1 a99_b2 Reference.empty_world _ _ _ _ _)).
  1, 2: distinct.
  all: apply canonical_serializable; vm_compute; repeat split.
Defined.

Lemma typed_merge_over_null_witness :
  storageActions.setItemInStorage "k" a1 true (holding JNull)
  = (Return (fail (Some ("Failed to set item in storage: "
                         +:+ fault_message NullToObject))), holding JNull).
Proof.
  apply (typed_merge_over_null "k" (JSON_stringify JNull) ("a", JNumber 1) []).
  - apply holds_holding.
  - run.
Defined.

Lemma modules_interoperate_witness :
  (storageActions.getEntryFromStorage "k"
     (setItemInStorage "k" (JObject a1) false Reference.empty_world).2).1
  = Return (succeed (JObject a1)).
Proof.
  apply (modules_interoperate "k" a1 Reference.empty_world).
  apply canonical_serializable. vm_compute. repeat split.
Defined.

Lemma legacy_null_argument_witness :
  setItemInStorage "k" JNull true (holding (JObject a1))
  = (Return false,
     log (mkError TypeError (fault_message NullToObject)) (holding (JObject a1))).
Proof.
  refine (proj1 (legacy_null_argument "k" (JObject a1) (holding (JObject a1)) _ _)).
  apply legacy_read_present with (text := JSON_stringify (JObject a1)).
  - apply holds_holding.
  - run.
Defined.

Lemma typed_preserve_over_corrupt_entry_witness :
  storageActions.setItemInStorage "k" a1 true (Reference.world_with "k" "oops")
  = (Return (fail (Some ("Failed to get entry from storage: "
                         +:+ fault_message (BadJSON "oops")))),
     Reference.world_with "k" "oops").
Proof.
  refine (eq_trans (typed_preserve_over_corrupt_entry "k" "oops" a1
                      (Reference.world_with "k" "oops") _ _) _); [| |run].
  - split; [run | discriminate].
  - run.
Defined.
Lemma typed_merges_are_idempotent_witness :
  (∃ again,
     let w1 := (storageActions.setItemInStorage "k" a99_b2 true (holding (JObject a1))).2 in
     storageActions.setItemInStorage "k" a99_b2 true w1
     = (Return (succeed (JObject again)),
        write_text "k" (JSON_stringify (JObject again)) w1)
     ∧ ∀ k, obj_lookup k again = obj_lookup k (preserved a1 a99_b2))
  ∧ (∃ again,
       let w1 := (storageActions.updateStoredPropsForKey "k" a99_b2
                    (holding (JObject a1))).2 in
       storageActions.updateStoredPropsForKey "k" a99_b2 w1
       = (Return (succeed (JObject again)),
          write_text "k" (JSON_stringify (JObject again)) w1)
       ∧ ∀ k, obj_lookup k again = obj_lookup k (updated a1 a99_b2)).
Proof.
  apply (typed_merges_are_idempotent "k" (JSON_stringify (JObject a1)) a1 a99_b2).
  - apply holds_holding.
  - run.
  - distinct.
  - distinct.
  - apply canonical_serializable. vm_compute. repeat split.
  - apply canonical_serializable. vm_compute. repeat split.
Defined.
End Further_runs.
